(** * Hitting Tiles: a shallow embedding of [src/game.js]

    The game keeps its state in module-level variables and changes it from
    four event handlers (animation frame, canvas click, key press, restart
    button).  The embedding below gathers the variables in one record
    [State] and turns every function of the script into a function on that
    record.

    Conventions.
    - A JavaScript number is an exact rational ([Q]); [lives] and [score],
      which only ever hold small integers, are in [Z].  Rounding, [NaN] and
      the infinities of IEEE doubles are outside this model; the one
      infinity the script writes ([bestY = -Infinity]) is [None] in an
      [option Q].
    - [Math.random()] is an input: the four draws that [spawnTile] uses for
      geometry and speed are the record [Rand].  The three later draws of the
      [Tile] constructor only choose a colour and an [id] that no game rule
      reads; they are left out, as are [draw] and the WebAudio synthesis.
    - What the script sends outwards (text of the score board, the game-over
      overlay, sound requests) is appended to the log [effects], newest
      first. *)

From Stdlib Require Import QArith Qround Lqa ZArith Lia List String Bool.
Import ListNotations.

Open Scope Q_scope.

(** ** Numbers *)

(** JavaScript [a > b] and [a >= b]. *)
Definition Qgtb (a b : Q) : bool := negb (Qle_bool a b).
Definition Qgeb (a b : Q) : bool := Qle_bool b a.

Definition Math_max (a b : Q) : Q := if Qle_bool a b then b else a.
Definition Math_min (a b : Q) : Q := if Qle_bool a b then a else b.

(** [Math.round]: nearest integer, halves towards plus infinity. *)
Definition Math_round (a : Q) : Q := inject_Z (Qfloor (a + 0.5)).

(** ** Arrays *)

(** [arr.splice(i, 1)]. *)
Definition splice1 {A : Type} (i : nat) (l : list A) : list A :=
  firstn i l ++ skipn (S i) l.

(** Writing through [arr[i]] (the tiles are objects, mutated in place). *)
Definition store {A : Type} (i : nat) (a : A) (l : list A) : list A :=
  firstn i l ++ a :: skipn (S i) l.

(** ** Difficulty profiles *)

Module Profile.
Record t : Type := mk
  { spawnInterval : Q; tileSpeed : Q; lives : Z; minMult : Q; maxMult : Q }.
End Profile.

Definition easy : Profile.t := Profile.mk 1300 70 5 0.85 1.15.
Definition normal : Profile.t := Profile.mk 900 110 3 0.95 1.45.
Definition hard : Profile.t := Profile.mk 650 160 2 1.05 1.9.

(** [difficultySettings[mode] || difficultySettings.normal], for [mode] a
    value of one of the two difficulty selectors.  The script indexes a
    plain object, so a name that [Object.prototype] defines ([constructor],
    [toString], ...; see [inherited_keys]) finds an inherited property
    there, skips the fallback and leaves the settings undefined.  Such
    names are outside this model, and the statements that depend on the
    lookup for an arbitrary name exclude them. *)
Definition difficultySettings (mode : string) : Profile.t :=
  if String.eqb mode "easy" then easy
  else if String.eqb mode "hard" then hard
  else normal.

Definition hitZoneHeight : Q := 90.

(** ** Tiles *)

Module Tile.
Record t : Type := mk { x : Q; y : Q; w : Q; h : Q; speed : Q }.

(** [new Tile(x, w, h, speed)] *)
Definition new (x w h speed : Q) : t := mk x (- h - 10) w h speed.

(** [update(dt)]: [this.y += this.speed * dt] *)
Definition update (dt : Q) (a : t) : t :=
  mk (x a) (y a + speed a * dt) (w a) (h a) (speed a).

Definition isPointInside (a : t) (px py : Q) : bool :=
  Qgeb px (x a) && Qle_bool px (x a + w a)
  && Qgeb py (y a) && Qle_bool py (y a + h a).
End Tile.

(** ** The state *)

Inductive Effect : Type :=
| HitSound
| MissSound
| DeathSound
| ShowScore (score lives : Z)      (* updateUI *)
| ShowGameOver (finalScore : Z)    (* endGame: final score, overlay, restart button *)
| HideGameOver.                    (* startGame: overlay and restart button hidden *)

Record State : Type := mkState
  { tiles : list Tile.t;
    lastSpawn : Q;
    spawnInterval : Q;
    tileSpeed : Q;
    score : Z;
    lives : Z;
    running : bool;
    lastTime : Q;
    difficulty : string;
    flashTime : Q;
    width : Q;
    height : Q;
    overlayDiff : string;     (* value of the overlay's difficulty chooser *)
    rafPending : nat;         (* gameLoop callbacks handed to requestAnimationFrame *)
    effects : list Effect }.

Definition set_tiles (v : list Tile.t) (s : State) : State :=
  mkState v (lastSpawn s) (spawnInterval s) (tileSpeed s) (score s) (lives s)
    (running s) (lastTime s) (difficulty s) (flashTime s) (width s) (height s)
    (overlayDiff s) (rafPending s) (effects s).
Definition set_lastSpawn (v : Q) (s : State) : State :=
  mkState (tiles s) v (spawnInterval s) (tileSpeed s) (score s) (lives s)
    (running s) (lastTime s) (difficulty s) (flashTime s) (width s) (height s)
    (overlayDiff s) (rafPending s) (effects s).
Definition set_spawnInterval (v : Q) (s : State) : State :=
  mkState (tiles s) (lastSpawn s) v (tileSpeed s) (score s) (lives s)
    (running s) (lastTime s) (difficulty s) (flashTime s) (width s) (height s)
    (overlayDiff s) (rafPending s) (effects s).
Definition set_tileSpeed (v : Q) (s : State) : State :=
  mkState (tiles s) (lastSpawn s) (spawnInterval s) v (score s) (lives s)
    (running s) (lastTime s) (difficulty s) (flashTime s) (width s) (height s)
    (overlayDiff s) (rafPending s) (effects s).
Definition set_score (v : Z) (s : State) : State :=
  mkState (tiles s) (lastSpawn s) (spawnInterval s) (tileSpeed s) v (lives s)
    (running s) (lastTime s) (difficulty s) (flashTime s) (width s) (height s)
    (overlayDiff s) (rafPending s) (effects s).
Definition set_lives (v : Z) (s : State) : State :=
  mkState (tiles s) (lastSpawn s) (spawnInterval s) (tileSpeed s) (score s) v
    (running s) (lastTime s) (difficulty s) (flashTime s) (width s) (height s)
    (overlayDiff s) (rafPending s) (effects s).
Definition set_running (v : bool) (s : State) : State :=
  mkState (tiles s) (lastSpawn s) (spawnInterval s) (tileSpeed s) (score s) (lives s)
    v (lastTime s) (difficulty s) (flashTime s) (width s) (height s)
    (overlayDiff s) (rafPending s) (effects s).
Definition set_lastTime (v : Q) (s : State) : State :=
  mkState (tiles s) (lastSpawn s) (spawnInterval s) (tileSpeed s) (score s) (lives s)
    (running s) v (difficulty s) (flashTime s) (width s) (height s)
    (overlayDiff s) (rafPending s) (effects s).
Definition set_difficulty (v : string) (s : State) : State :=
  mkState (tiles s) (lastSpawn s) (spawnInterval s) (tileSpeed s) (score s) (lives s)
    (running s) (lastTime s) v (flashTime s) (width s) (height s)
    (overlayDiff s) (rafPending s) (effects s).
Definition set_flashTime (v : Q) (s : State) : State :=
  mkState (tiles s) (lastSpawn s) (spawnInterval s) (tileSpeed s) (score s) (lives s)
    (running s) (lastTime s) (difficulty s) v (width s) (height s)
    (overlayDiff s) (rafPending s) (effects s).
Definition set_size (w h : Q) (s : State) : State :=
  mkState (tiles s) (lastSpawn s) (spawnInterval s) (tileSpeed s) (score s) (lives s)
    (running s) (lastTime s) (difficulty s) (flashTime s) w h
    (overlayDiff s) (rafPending s) (effects s).
Definition set_overlayDiff (v : string) (s : State) : State :=
  mkState (tiles s) (lastSpawn s) (spawnInterval s) (tileSpeed s) (score s) (lives s)
    (running s) (lastTime s) (difficulty s) (flashTime s) (width s) (height s)
    v (rafPending s) (effects s).
Definition set_rafPending (v : nat) (s : State) : State :=
  mkState (tiles s) (lastSpawn s) (spawnInterval s) (tileSpeed s) (score s) (lives s)
    (running s) (lastTime s) (difficulty s) (flashTime s) (width s) (height s)
    (overlayDiff s) v (effects s).
Definition emit (e : Effect) (s : State) : State :=
  mkState (tiles s) (lastSpawn s) (spawnInterval s) (tileSpeed s) (score s) (lives s)
    (running s) (lastTime s) (difficulty s) (flashTime s) (width s) (height s)
    (overlayDiff s) (rafPending s) (e :: effects s).

(** ** The functions of the script *)

Definition applyDifficulty (mode : string) (resetCurrent : bool) (s : State) : State :=
  let p := difficultySettings mode in
  let s := set_spawnInterval (Profile.spawnInterval p) s in
  let s := set_tileSpeed (Profile.tileSpeed p) s in
  if resetCurrent then set_lives (Profile.lives p) s else s.

Definition resizeCanvas (w h : Q) (s : State) : State := set_size w h s.

Definition updateUI (s : State) : State := emit (ShowScore (score s) (lives s)) s.

Definition requestAnimationFrame (s : State) : State :=
  set_rafPending (S (rafPending s)) s.

Definition endGame (s : State) : State :=
  let s := set_running false s in
  let s := emit (ShowGameOver (score s)) s in
  let s := emit DeathSound s in
  set_overlayDiff (difficulty s) s.

Definition startGame (s : State) : State :=
  let s := set_tiles [] s in
  let s := set_score 0 s in
  let s := applyDifficulty (difficulty s) true s in
  let s := set_lastSpawn 0 s in
  let s := set_lastTime 0 s in
  let s := set_running true s in
  let s := emit HideGameOver s in
  let s := updateUI s in
  requestAnimationFrame s.

(** The draws of [Math.random()] in [spawnTile], in the order they are made. *)
Record Rand : Type := mkRand { rW : Q; rH : Q; rX : Q; rMult : Q }.

(** The tile [spawnTile] builds (lines 226-235). *)
Definition new_tile (r : Rand) (s : State) : Tile.t :=
  let margin := 16 in
  let w := Math_max 40 (Math_min 100 (width s * (0.08 + rW r * 0.07))) in
  let h := Math_max 24 (Math_round (w * (0.5 + rH r * 0.6))) in
  let x := margin + rX r * (width s - w - margin * 2) in
  let p := difficultySettings (difficulty s) in
  let minM := Profile.minMult p in
  let maxM := Profile.maxMult p in
  let mult := minM + rMult r * (maxM - minM) in
  let speed := tileSpeed s * mult in
  Tile.new x w h speed.

(** [tiles.push(new Tile(x, w, h, speed))] *)
Definition spawnTile (r : Rand) (s : State) : State :=
  set_tiles (tiles s ++ [new_tile r s]) s.

Definition penalizeMiss (s : State) : State :=
  let s := set_lives (lives s - 1) s in
  let s := set_flashTime 0.22 s in
  let s := emit MissSound s in
  let s := set_tileSpeed (tileSpeed s * 1.06) s in
  let s := if Qgtb (spawnInterval s) 280
           then set_spawnInterval (spawnInterval s * 0.92) s else s in
  let s := updateUI s in
  if (lives s <=? 0)%Z then endGame s else s.

(** Lines 253-257 of [update]: the spawn accumulator. *)
Definition spawn_step (r : Rand) (dt : Q) (s : State) : State :=
  let s := set_lastSpawn (lastSpawn s + dt * 1000) s in
  if Qgtb (lastSpawn s) (spawnInterval s)
  then spawnTile r (set_lastSpawn 0 s)
  else s.

(** One pass of the body of [for (let i = tiles.length - 1; i >= 0; i--)]
    at index [i].  An index outside the array cannot occur (see
    [update_tiles_spec]); the script would throw there and the model leaves
    the state alone. *)
Definition update_body (dt : Q) (i : nat) (s : State) : State :=
  match nth_error (tiles s) i with
  | None => s
  | Some t =>
      let t := Tile.update dt t in
      let s := set_tiles (store i t (tiles s)) s in
      if Qgtb (Tile.y t) (height s) then
        let s := set_tiles (splice1 i (tiles s)) s in
        let s := set_lives (lives s - 1) s in
        let s := emit MissSound s in
        let s := updateUI s in
        if (lives s <=? 0)%Z then endGame s else s
      else s
  end.

(** The loop itself: [n] is [i + 1], so it runs the indices [n-1 .. 0]. *)
Fixpoint update_loop (dt : Q) (n : nat) (s : State) : State :=
  match n with
  | O => s
  | S i => update_loop dt i (update_body dt i s)
  end.

Definition update_tiles (dt : Q) (s : State) : State :=
  update_loop dt (List.length (tiles s)) s.

Definition update (r : Rand) (dt : Q) (s : State) : State :=
  update_tiles dt (spawn_step r dt s).

(** The elapsed time [gameLoop] computes for the timestamp [ts]:
    [if (!lastTime) lastTime = ts; dt = (ts - lastTime) / 1000]. *)
Definition frame_dt (ts : Q) (s : State) : Q :=
  let last := if Qeq_bool (lastTime s) 0 then ts else lastTime s in
  (ts - last) / 1000.

Definition gameLoop (r : Rand) (ts : Q) (s : State) : State :=
  if negb (running s) then s
  else
    let dt := frame_dt ts s in
    let s := set_lastTime ts s in
    let s := update r dt s in
    let s := if Qgtb (flashTime s) 0
             then set_flashTime (Math_max 0 (flashTime s - dt)) s else s in
    requestAnimationFrame s.

(** ** Input handlers *)

Definition hit_by_click (i : nat) (s : State) : State :=
  let s := set_tiles (splice1 i (tiles s)) s in
  let s := set_score (score s + 1) s in
  let s := updateUI s in
  emit HitSound s.

(** [for (let i = tiles.length - 1; i >= 0; i--)] of the click handler;
    [n] is [i + 1].  [Some] is the state at the [return] inside the loop,
    [None] means the loop ran to its end. *)
Fixpoint click_loop (px py : Q) (n : nat) (s : State) : option State :=
  match n with
  | O => None
  | S i =>
      match nth_error (tiles s) i with
      | Some t =>
          if Tile.isPointInside t px py then Some (hit_by_click i s)
          else click_loop px py i s
      | None => click_loop px py i s
      end
  end.

Definition click (px py : Q) (s : State) : State :=
  if negb (running s) then s
  else
    match click_loop px py (List.length (tiles s)) s with
    | Some s' => s'
    | None => penalizeMiss s
    end.

(** The test of the key handler: [t.y + t.h >= hitY && t.y <= height]. *)
Definition in_hit_zone (hitY fieldBottom : Q) (t : Tile.t) : bool :=
  Qgeb (Tile.y t + Tile.h t) hitY && Qle_bool (Tile.y t) fieldBottom.

(** [v > bestY], where [None] is the initial [-Infinity]. *)
Definition above_best (v : Q) (bestY : option Q) : bool :=
  match bestY with
  | None => true
  | Some b => Qgtb v b
  end.

(** [for (let i = 0; i < tiles.length; i++)] of the key handler, from index
    [i] on, [l] being the tiles from there; the result is [candidateIndex]. *)
Fixpoint key_scan (hitY fieldBottom : Q) (l : list Tile.t)
    (i : Z) (candidateIndex : Z) (bestY : option Q) : Z :=
  match l with
  | [] => candidateIndex
  | t :: rest =>
      if in_hit_zone hitY fieldBottom t
         && above_best (Tile.y t + Tile.h t) bestY
      then key_scan hitY fieldBottom rest (i + 1)%Z i (Some (Tile.y t + Tile.h t))
      else key_scan hitY fieldBottom rest (i + 1)%Z candidateIndex bestY
  end.

Definition hit_by_key (candidateIndex : Z) (s : State) : State :=
  let s := set_tiles (splice1 (Z.to_nat candidateIndex) (tiles s)) s in
  let s := set_score (score s + 1) s in
  let s := updateUI s in
  let s := emit HitSound s in
  let s := set_tileSpeed (tileSpeed s * 1.002) s in
  if Qgtb (spawnInterval s) 380
  then set_spawnInterval (spawnInterval s * 0.998) s else s.

Definition keydown (key code : string) (s : State) : State :=
  if negb (running s) then
    if String.eqb key "Enter" then startGame s else s
  else if String.eqb code "Space" || String.eqb key "ArrowDown" then
    let hitY := height s - hitZoneHeight in
    let candidateIndex := key_scan hitY (height s) (tiles s) 0%Z (-1)%Z None in
    if (0 <=? candidateIndex)%Z then hit_by_key candidateIndex s
    else penalizeMiss s
  else s.

(** Click on the restart button. *)
Definition restart (s : State) : State :=
  let s := emit HideGameOver s in
  let chosen := if String.eqb (overlayDiff s) "" then difficulty s
                else overlayDiff s in
  let s := set_difficulty chosen s in
  let s := applyDifficulty (difficulty s) true s in
  startGame s.

(** [change] on the difficulty selector. *)
Definition difficultyChange (value : string) (s : State) : State :=
  let s := set_difficulty value s in
  if negb (running s) then applyDifficulty (difficulty s) true s
  else
    let p := difficultySettings (difficulty s) in
    let s := set_spawnInterval (Profile.spawnInterval p) s in
    set_tileSpeed (Profile.tileSpeed p) s.

(** ** The event loop *)

Inductive Input : Type :=
| Frame (r : Rand) (ts : Q)          (* a scheduled gameLoop callback fires *)
| Click (px py : Q)
| KeyDown (key code : string)
| RestartClick
| DifficultyChange (value : string)
| OverlayChoice (value : string)     (* the player picks a level on the overlay *)
| Resize (w h : Q).

Definition step (i : Input) (s : State) : State :=
  match i with
  | Frame r ts =>
      match rafPending s with
      | O => s
      | S n => gameLoop r ts (set_rafPending n s)
      end
  | Click px py => click px py s
  | KeyDown key code => keydown key code s
  | RestartClick => restart s
  | DifficultyChange v => difficultyChange v s
  | OverlayChoice v => set_overlayDiff v s
  | Resize w h => resizeCanvas w h s
  end.

Definition run (l : list Input) (s : State) : State :=
  fold_left (fun acc i => step i acc) l s.

(** The module-level variables as the script declares them. *)
Definition globals : State :=
  {| tiles := []; lastSpawn := 0; spawnInterval := 900; tileSpeed := 100;
     score := 0; lives := 3; running := false; lastTime := 0;
     difficulty := "normal"; flashTime := 0; width := 800; height := 600;
     overlayDiff := "normal"; rafPending := 0; effects := [] |}.

(** [init()], the canvas being [w] by [h]. *)
Definition init (w h : Q) : State :=
  let s := resizeCanvas w h globals in
  let s := emit HideGameOver s in
  let s := set_overlayDiff (difficulty s) s in
  startGame s.

Inductive reachable : State -> Prop :=
| reachable_init : forall w h, reachable (init w h)
| reachable_step : forall i s, reachable s -> reachable (step i s).

(** How often [endGame] ran, read off the effect log. *)
Fixpoint game_overs (l : list Effect) : nat :=
  match l with
  | [] => O
  | ShowGameOver _ :: l => S (game_overs l)
  | _ :: l => game_overs l
  end.

(** * Vocabulary of the statements, and sample states *)

(** A tile whose top edge is below the bottom of the field. *)
Definition gone (fieldBottom : Q) (t : Tile.t) : bool :=
  Qgtb (Tile.y t) fieldBottom.

(** What the miss loop never writes. *)
Definition same_settings (s s' : State) : Prop :=
  lastSpawn s' = lastSpawn s /\ spawnInterval s' = spawnInterval s /\
  tileSpeed s' = tileSpeed s /\ score s' = score s /\
  lastTime s' = lastTime s /\ difficulty s' = difficulty s /\
  flashTime s' = flashTime s /\ width s' = width s /\ height s' = height s /\
  rafPending s' = rafPending s.

(** A tile the key handler considers, and its lower edge. *)
Definition in_zone (hitY fieldBottom : Q) (t : Tile.t) : Prop :=
  in_hit_zone hitY fieldBottom t = true.

Definition bottom_edge (t : Tile.t) : Q := Tile.y t + Tile.h t.

(** What [candidateIndex] and [bestY] say about the tiles [seen] so far. *)
Definition scan_inv (hitY fieldBottom : Q) (seen : list Tile.t)
    (candidateIndex : Z) (bestY : option Q) : Prop :=
  (candidateIndex = (-1)%Z /\ bestY = None /\
   forall u, In u seen -> ~ in_zone hitY fieldBottom u)
  \/
  (exists p t q,
     seen = p ++ t :: q /\
     candidateIndex = Z.of_nat (List.length p) /\
     bestY = Some (bottom_edge t) /\ in_zone hitY fieldBottom t /\
     (forall u, In u p -> in_zone hitY fieldBottom u ->
                bottom_edge u < bottom_edge t) /\
     (forall u, In u q -> in_zone hitY fieldBottom u ->
                bottom_edge u <= bottom_edge t)).

(** [Math.random()] returns a number in [0, 1). *)
Definition unit_draw (q : Q) : Prop := 0 <= q /\ q < 1.

Definition valid_rand (r : Rand) : Prop :=
  unit_draw (rW r) /\ unit_draw (rH r) /\ unit_draw (rX r) /\ unit_draw (rMult r).

Definition r0 : Rand := mkRand 0 0 0 0.

Definition tileA : Tile.t := Tile.mk 100 200 60 40 110.
Definition tileB : Tile.t := Tile.mk 120 210 60 40 120.

(** A running game with two overlapping tiles, [tileA] spawned first. *)
Definition two_tiles : State := set_tiles [tileA; tileB] (init 800 600).

Definition k1 : Tile.t := Tile.mk 100 500 60 40 110.
Definition k2 : Tile.t := Tile.mk 300 520 60 40 120.
Definition k3 : Tile.t := Tile.mk 500 530 60 30 130.

(** A running game with three tiles in the hit zone; [k2] and [k3] reach
    equally low and lower than [k1]. *)
Definition three_in_zone : State := set_tiles [k1; k2; k3] (init 800 600).

(** What one key hit and one miss penalty do to the spawn interval. *)
Definition key_escalation (v : Q) : Q := if Qgtb v 380 then v * 0.998 else v.
Definition miss_escalation (v : Q) : Q := if Qgtb v 280 then v * 0.92 else v.


(** Four frames one second apart: the first tick has [dt = 0], each of the
    next three spawns a tile. *)
Definition steady_frames : list Input :=
  [Frame r0 1000; Frame r0 2000; Frame r0 3000; Frame r0 4000].

Definition before_stall : State := run steady_frames (init 800 600).

(** The next frame comes 100 s later (the page was in the background). *)
Definition after_stall : State := step (Frame r0 104000) before_stall.

(** What does hold of the lives in every reachable state: once they are
    used up the game is stopped. *)
Definition stopped_when_exhausted (s : State) : Prop :=
  (lives s <= 0)%Z -> running s = false.

(** ** The mute preference (lines 53-81)

    The script keeps [muted] in a variable of its own, mirrors it in
    [localStorage] under the key [muted] and on the label of the mute
    button.  [localStorage] may throw (the script catches it); the calls to
    [suspend] and [resume] of the audio context are asynchronous, so they
    are logged and the state of the context is left as it is. *)

Module Mute.
Inductive CtxState : Type := CtxRunning | CtxSuspended | CtxClosed.
Inductive CtxCall : Type := Suspend | Resume.
Inductive Label : Type := SpeakerOff | SpeakerOn.

Record t : Type := mk
  { muted : bool;
    stored : option string;         (* localStorage.getItem('muted') *)
    storageThrows : bool;
    audioCtx : option CtxState;     (* None: no context created yet *)
    calls : list CtxCall;           (* newest first *)
    label : Label }.

(** The state of a page that opens on the storage [st]. *)
Definition opened (st : option string) (throws : bool) : t :=
  mk false st throws None [] SpeakerOn.

(** Lines 57-60: [if (saved === '1') muted = true], inside [try]. *)
Definition load (p : t) : t :=
  if storageThrows p then p
  else
    match stored p with
    | Some v =>
        if String.eqb v "1"
        then mk true (stored p) (storageThrows p) (audioCtx p) (calls p) (label p)
        else p
    | None => p
    end.

Definition setMuted (v : bool) (p : t) : t :=
  let m := v in
  let lbl := if m then SpeakerOff else SpeakerOn in
  let st := if storageThrows p then stored p
            else Some (if m then "1" else "0")%string in
  let cs :=
    match audioCtx p with
    | Some CtxRunning => if m then Suspend :: calls p else calls p
    | Some CtxSuspended => if negb m then Resume :: calls p else calls p
    | _ => calls p
    end in
  mk m st (storageThrows p) (audioCtx p) cs lbl.

(** Click on the mute button. *)
Definition toggle (p : t) : t := setMuted (negb (muted p)) p.

(** The next visit: the page opens on what the storage holds now, and
    [init] ends with [setMuted(muted)]. *)
Definition reopen (p : t) : t :=
  let q := load (opened (stored p) (storageThrows p)) in
  setMuted (muted q) q.
End Mute.

(** ** More vocabulary *)

(** The inputs a player gives during play, and the frame callback. *)
Definition play_input (i : Input) : Prop :=
  match i with
  | Frame _ _ | Click _ _ | KeyDown _ _ => True
  | _ => False
  end.

Definition is_frame (i : Input) : Prop :=
  match i with
  | Frame _ _ => True
  | _ => False
  end.

(** The number of times the miss loop runs [endGame] when it starts with
    [lives] lives and [k] tiles have passed the bottom: once for every
    tile from the one that takes the lives to 0 on. *)
Definition game_overs_of_misses (lives : Z) (k : nat) : nat :=
  Z.to_nat (Z.max 0 (Z.of_nat k - Z.max lives 1 + 1)).

(** Bounds that every reachable state keeps. *)
Definition escalation_bounds (s : State) : Prop :=
  257.6 < spawnInterval s /\ spawnInterval s <= 1300 /\ 70 <= tileSpeed s.

Definition counter_bounds (s : State) : Prop :=
  (0 <= score s)%Z /\ (lives s <= 5)%Z /\ 0 <= flashTime s.

Definition frame_pending (s : State) : Prop :=
  running s = true -> (1 <= rafPending s)%nat.

Definition healthy (s : State) : Prop :=
  escalation_bounds s /\ counter_bounds s /\ frame_pending s.

(** The names that have a profile of their own: the options of the two
    difficulty selectors. *)
Definition has_profile (v : string) : Prop :=
  v = "easy"%string \/ v = "normal"%string \/ v = "hard"%string.

(** The property names every plain object inherits from
    [Object.prototype]. *)
Definition inherited_keys : list string :=
  ["constructor"; "__proto__"; "hasOwnProperty"; "isPrototypeOf";
   "propertyIsEnumerable"; "toLocaleString"; "toString"; "valueOf";
   "__defineGetter__"; "__defineSetter__"; "__lookupGetter__";
   "__lookupSetter__"]%string.

(** An input whose difficulty name, if it carries one, has a profile. *)
Definition selector_input (i : Input) : Prop :=
  match i with
  | DifficultyChange v | OverlayChoice v => has_profile v
  | _ => True
  end.

(** The states reached when the selectors only ever hold names that have
    a profile. *)
Inductive reachable_named : State -> Prop :=
| reachable_named_init : forall w h, reachable_named (init w h)
| reachable_named_step : forall i s,
    selector_input i -> reachable_named s -> reachable_named (step i s).

(** Draws that give the fastest tiles. *)
Definition r_fast : Rand := mkRand 0 0 0 0.99.

(** * Properties *)

(** ** Comparisons *)

Lemma Qgtb_true (a b : Q) : Qgtb a b = true <-> b < a.
Proof.
  unfold Qgtb. rewrite negb_true_iff, <- not_true_iff_false, Qle_bool_iff.
  split; [apply Qnot_le_lt | apply Qlt_not_le].
Qed.

Lemma Qgtb_false (a b : Q) : Qgtb a b = false <-> a <= b.
Proof.
  unfold Qgtb. rewrite negb_false_iff. apply Qle_bool_iff.
Qed.

Lemma Math_max_l (a b : Q) : a <= Math_max a b.
Proof.
  unfold Math_max. destruct (Qle_bool a b) eqn:E.
  - now apply Qle_bool_iff.
  - apply Qle_refl.
Qed.

(** ** Arrays *)

Lemma nth_error_middle {A : Type} (pre suf : list A) (a : A) :
  nth_error (pre ++ a :: suf) (List.length pre) = Some a.
Proof.
  rewrite nth_error_app2 by lia. now rewrite Nat.sub_diag.
Qed.

Lemma firstn_middle {A : Type} (pre suf : list A) :
  firstn (List.length pre) (pre ++ suf) = pre.
Proof.
  rewrite firstn_app, Nat.sub_diag, firstn_all. cbn. apply app_nil_r.
Qed.

Lemma skipn_middle {A : Type} (pre suf : list A) (a : A) :
  skipn (S (List.length pre)) (pre ++ a :: suf) = suf.
Proof.
  rewrite skipn_app, skipn_all2 by lia.
  replace (S (List.length pre) - List.length pre)%nat with 1%nat by lia.
  reflexivity.
Qed.

Lemma splice1_middle {A : Type} (pre suf : list A) (a : A) :
  splice1 (List.length pre) (pre ++ a :: suf) = pre ++ suf.
Proof.
  unfold splice1. now rewrite firstn_middle, skipn_middle.
Qed.

Lemma store_middle {A : Type} (pre suf : list A) (a b : A) :
  store (List.length pre) b (pre ++ a :: suf) = pre ++ b :: suf.
Proof.
  unfold store. now rewrite firstn_middle, skipn_middle.
Qed.

(** ** The frame update *)

Lemma same_settings_refl (s : State) : same_settings s s.
Proof. repeat split. Qed.

Lemma same_settings_trans (s1 s2 s3 : State) :
  same_settings s1 s2 -> same_settings s2 s3 -> same_settings s1 s3.
Proof.
  unfold same_settings. intros H12 H23.
  decompose [and] H12. decompose [and] H23. repeat split; congruence.
Qed.

Lemma update_body_at (dt : Q) (pre suf : list Tile.t) (t : Tile.t) (s : State) :
  tiles s = pre ++ t :: suf ->
  let t' := Tile.update dt t in
  let s' := update_body dt (List.length pre) s in
  same_settings s s' /\
  (gone (height s) t' = true ->
     tiles s' = pre ++ suf /\ lives s' = (lives s - 1)%Z) /\
  (gone (height s) t' = false ->
     tiles s' = pre ++ t' :: suf /\ lives s' = lives s).
Proof.
  intros Ht. cbn zeta. unfold update_body, gone.
  rewrite Ht, nth_error_middle. cbn [set_tiles height tiles].
  rewrite store_middle.
  destruct (Qgtb (Tile.y (Tile.update dt t)) (height s)) eqn:E.
  - cbn [set_tiles tiles]. rewrite splice1_middle.
    cbn. destruct (lives s - 1 <=? 0)%Z; cbn;
      (split; [repeat split | split; [intros _; split; reflexivity | discriminate]]).
  - cbn. split; [repeat split | split; [discriminate | intros _; split; reflexivity]].
Qed.

Lemma update_loop_spec (dt : Q) (pre : list Tile.t) :
  forall (suf : list Tile.t) (s : State),
    tiles s = pre ++ suf ->
    let moved := map (Tile.update dt) pre in
    let s' := update_loop dt (List.length pre) s in
    same_settings s s' /\
    tiles s' = filter (fun t => negb (gone (height s) t)) moved ++ suf /\
    lives s' = (lives s - Z.of_nat (List.length (filter (gone (height s)) moved)))%Z.
Proof.
  induction pre as [|t pre IH] using rev_ind; intros suf s Ht; cbn zeta.
  - cbn. split; [apply same_settings_refl | split; [assumption | lia]].
  - rewrite length_app, Nat.add_1_r. cbn [update_loop].
    rewrite <- app_assoc in Ht. cbn [app] in Ht.
    destruct (update_body_at dt pre suf t s Ht) as (Hs & Hgone & Hstay).
    assert (Hh : height (update_body dt (List.length pre) s) = height s)
      by (unfold same_settings in Hs; tauto).
    rewrite map_app, !filter_app. cbn [map filter].
    destruct (gone (height s) (Tile.update dt t)) eqn:E.
    + destruct (Hgone eq_refl) as (Ht' & Hl').
      destruct (IH suf _ Ht') as (Hs2 & Ht2 & Hl2).
      rewrite Hh in Ht2, Hl2. cbn [negb].
      split; [eapply same_settings_trans; eassumption|].
      split.
      * now rewrite Ht2, app_nil_r.
      * rewrite Hl2, Hl', length_app. cbn [List.length]. lia.
    + destruct (Hstay eq_refl) as (Ht' & Hl').
      destruct (IH _ _ Ht') as (Hs2 & Ht2 & Hl2).
      rewrite Hh in Ht2, Hl2. cbn [negb].
      split; [eapply same_settings_trans; eassumption|].
      split.
      * now rewrite Ht2, <- app_assoc.
      * rewrite Hl2, Hl', length_app. cbn [List.length]. lia.
Qed.

(** The miss loop as a whole: it moves every tile, drops those past the
    bottom and takes one life for each. *)
Lemma update_tiles_spec (dt : Q) (s : State) :
  let moved := map (Tile.update dt) (tiles s) in
  let s' := update_tiles dt s in
  same_settings s s' /\
  tiles s' = filter (fun t => negb (gone (height s) t)) moved /\
  lives s' = (lives s - Z.of_nat (List.length (filter (gone (height s)) moved)))%Z.
Proof.
  cbn zeta. unfold update_tiles.
  destruct (update_loop_spec dt (tiles s) [] s) as (Hs & Ht & Hl).
  - now rewrite app_nil_r.
  - rewrite app_nil_r in Ht. auto.
Qed.

Lemma spawn_step_cases (r : Rand) (dt : Q) (s : State) :
  let s1 := spawn_step r dt s in
  (lastSpawn s + dt * 1000 <= spawnInterval s /\
   tiles s1 = tiles s /\ lastSpawn s1 = lastSpawn s + dt * 1000)
  \/
  (spawnInterval s < lastSpawn s + dt * 1000 /\
   tiles s1 = tiles s ++ [new_tile r (set_lastSpawn 0 s)] /\ lastSpawn s1 = 0).
Proof.
  cbn zeta. unfold spawn_step. cbn [set_lastSpawn lastSpawn spawnInterval].
  destruct (Qgtb (lastSpawn s + dt * 1000) (spawnInterval s)) eqn:E.
  - right. apply Qgtb_true in E. repeat split; assumption.
  - left. apply Qgtb_false in E. repeat split; assumption.
Qed.

Lemma spawn_step_keeps (r : Rand) (dt : Q) (s : State) :
  let s1 := spawn_step r dt s in
  lives s1 = lives s /\ height s1 = height s /\ running s1 = running s /\
  spawnInterval s1 = spawnInterval s /\ tileSpeed s1 = tileSpeed s /\
  score s1 = score s /\ effects s1 = effects s.
Proof.
  cbn zeta. unfold spawn_step. cbn [set_lastSpawn lastSpawn spawnInterval].
  destruct (Qgtb (lastSpawn s + dt * 1000) (spawnInterval s));
    cbn; repeat split.
Qed.

(** C2.  In every frame update, the tiles left are exactly the moved tiles
    that are not below the bottom of the field, in their order; [lives]
    drops by the number of moved tiles that are below it (one life per
    tile, none counted twice), so no tile below the bottom is left for the
    next frame.  A single tile at [y = 601] in a field of height 600 is
    removed by one update with [dt = 0], and [lives] goes from 3 to 2. *)
Theorem update_miss_accounting (r : Rand) (dt : Q) (s : State) :
  let moved := map (Tile.update dt) (tiles (spawn_step r dt s)) in
  let s' := update r dt s in
  tiles s' = filter (fun t => negb (gone (height s) t)) moved /\
  lives s' = (lives s - Z.of_nat (List.length (filter (gone (height s)) moved)))%Z /\
  (forall t, In t (tiles s') -> Tile.y t <= height s) /\
  (forall x w h speed,
     let s0 := set_tiles [Tile.mk x 601 w h speed] (init 800 600) in
     height s0 = 600 /\ lives s0 = 3%Z /\
     tiles (update r 0 s0) = [] /\ lives (update r 0 s0) = 2%Z).
Proof.
  cbn zeta. unfold update.
  destruct (spawn_step_keeps r dt s) as (Hl & Hh & _).
  destruct (update_tiles_spec dt (spawn_step r dt s)) as (_ & Ht & Hlv).
  rewrite Hh in Ht, Hlv. rewrite Hl in Hlv.
  split; [exact Ht|]. split; [exact Hlv|]. split.
  - intros t Hin. rewrite Ht in Hin. apply filter_In in Hin.
    destruct Hin as (_ & Hk). apply negb_true_iff in Hk.
    now apply Qgtb_false in Hk.
  - intros x w h speed.
    split; [reflexivity|]. split; [reflexivity|].
    set (s0 := set_tiles _ _).
    destruct (update_tiles_spec 0 (spawn_step r 0 s0)) as (_ & Ht0 & Hl0).
    assert (Hs0 : spawn_step r 0 s0 = set_lastSpawn (0 + 0 * 1000) s0)
      by reflexivity.
    rewrite Hs0 in Ht0, Hl0. cbn [set_lastSpawn tiles height lives s0
      set_tiles init map] in Ht0, Hl0.
    assert (Hg : gone 600 (Tile.update 0 (Tile.mk x 601 w h speed)) = true).
    { apply Qgtb_true. cbn. lra. }
    change (height (init 800 600)) with 600 in Ht0, Hl0.
    change (lives (init 800 600)) with 3%Z in Hl0.
    cbn [filter] in Ht0, Hl0. rewrite Hg in Ht0, Hl0.
    rewrite Hs0. split; [exact Ht0 | exact Hl0].
Qed.

Lemma update_miss_accounting_witness :
  tiles (update r0 0 (set_tiles [Tile.mk 16 601 64 32 110] (init 800 600))) = [] /\
  lives (update r0 0 (set_tiles [Tile.mk 16 601 64 32 110] (init 800 600))) = 2%Z.
Proof.
  destruct (update_miss_accounting r0 0 (init 800 600)) as (_ & _ & _ & H).
  destruct (H 16 64 32 110) as (_ & _ & Ht & Hl).
  split; [exact Ht | exact Hl].
Defined.

(** ** Spawning *)

(** A tile spawned under the normal profile at base speed 110 is, after
    0.95 s, still far above the bottom of any field at least 118 high. *)
Lemma first_tile_stays (r : Rand) (w h : Q) :
  rMult r < 1 -> 118 <= h ->
  gone h (Tile.update 0.95 (new_tile r (set_lastSpawn 0 (init w h)))) = false.
Proof.
  intros Hr Hh. apply Qgtb_false.
  unfold new_tile, Tile.new, Tile.update. cbn [Tile.y Tile.speed].
  change (difficultySettings _) with normal.
  change (tileSpeed _) with 110.
  cbn [Profile.minMult Profile.maxMult normal].
  match goal with |- - Math_max 24 ?a - _ + _ <= _ =>
    pose proof (Math_max_l 24 a); set (hh := Math_max 24 a) in *
  end.
  lra.
Qed.

Lemma update_tiles_single (dt : Q) (s : State) (t : Tile.t) :
  tiles s = [t] ->
  gone (height s) (Tile.update dt t) = false ->
  tiles (update_tiles dt s) = [Tile.update dt t] /\
  lives (update_tiles dt s) = lives s /\
  lastSpawn (update_tiles dt s) = lastSpawn s.
Proof.
  intros Ht Hstay.
  destruct (update_tiles_spec dt s) as (Hs & Htiles & Hlives).
  rewrite Ht in Htiles, Hlives. cbn [map filter] in Htiles, Hlives.
  rewrite Hstay in Htiles, Hlives. cbn [negb List.length] in Htiles, Hlives.
  destruct Hs as (Hs & _).
  split; [exact Htiles|]. split; [lia | exact Hs].
Qed.

Lemma init_fields (w h : Q) :
  tiles (init w h) = [] /\ lastSpawn (init w h) = 0 /\
  spawnInterval (init w h) = 900 /\ tileSpeed (init w h) = 110 /\
  lives (init w h) = 3%Z /\ height (init w h) = h /\
  running (init w h) = true /\ score (init w h) = 0%Z.
Proof. repeat split. Qed.

(** C5 (as the code has it).  The spawn step of a frame update either
    leaves the tile array as it is (the accumulator has not passed the
    spawn interval) or appends exactly one tile and sets the accumulator to
    0, whatever [dt] is; the whole update therefore never lengthens the
    array by more than one.  After a fresh start under the normal profile
    (interval 900, base speed 110, 3 lives) on a field at least 118 high,
    one update with [dt = 0.95] leaves exactly one tile, the accumulator at
    0 and [lives] at 3. *)
Theorem spawn_at_most_one (r : Rand) (dt : Q) (s : State) :
  let s1 := spawn_step r dt s in
  let s' := update r dt s in
  ((lastSpawn s + dt * 1000 <= spawnInterval s /\ tiles s1 = tiles s)
   \/
   (spawnInterval s < lastSpawn s + dt * 1000 /\
    (exists t, tiles s1 = tiles s ++ [t]) /\ lastSpawn s' = 0)) /\
  (List.length (tiles s') <= S (List.length (tiles s)))%nat /\
  (valid_rand r ->
   forall w h, 118 <= h ->
     let s0 := init w h in
     spawnInterval s0 = 900 /\ tileSpeed s0 = 110 /\ lives s0 = 3%Z /\
     tiles s0 = [] /\
     (exists t, tiles (update r 0.95 s0) = [t]) /\
     lastSpawn (update r 0.95 s0) = 0 /\
     lives (update r 0.95 s0) = 3%Z).
Proof.
  cbn zeta.
  destruct (update_tiles_spec dt (spawn_step r dt s)) as (Hs & Ht & _).
  assert (Hlen : (List.length (tiles (update r dt s))
                  <= List.length (tiles (spawn_step r dt s)))%nat).
  { unfold update. rewrite Ht.
    eapply Nat.le_trans; [apply filter_length_le | now rewrite length_map]. }
  split; [|split].
  - destruct (spawn_step_cases r dt s) as [(Hle & Hsame & _) | (Hlt & Happ & Hz)].
    + left. auto.
    + right. split; [exact Hlt|]. split; [eauto|].
      unfold update. destruct Hs as (Hs & _). now rewrite Hs.
  - destruct (spawn_step_cases r dt s) as [(_ & Hsame & _) | (_ & Happ & _)].
    + rewrite Hsame in Hlen. lia.
    + rewrite Happ, length_app in Hlen. cbn in Hlen. lia.
  - intros (_ & _ & _ & _ & Hr) w h Hh.
    destruct (init_fields w h) as (I1 & I2 & I3 & I4 & I5 & I6 & _).
    do 4 (split; [assumption|]).
    destruct (spawn_step_cases r 0.95 (init w h))
      as [(Hle & _) | (_ & Happ & Hz)].
    { exfalso. rewrite I2, I3 in Hle. revert Hle.
      apply Qlt_not_le. reflexivity. }
    destruct (spawn_step_keeps r 0.95 (init w h)) as (Hl1 & Hh1 & _).
    rewrite I1 in Happ. rewrite I6 in Hh1. rewrite I5 in Hl1.
    pose proof (first_tile_stays r w h Hr Hh) as Hstay.
    rewrite <- Hh1 in Hstay.
    destruct (update_tiles_single 0.95 _ _ Happ Hstay) as (T1 & T2 & T3).
    unfold update. split; [eauto|]. split; congruence.
Qed.

(** C5, the claim as written fails: Scenario A depends on the height of
    the field.  On a canvas 800 wide and 100 high, with the speed draw at
    0.99, the tile spawned by the update with [dt = 0.95] starts at
    [y = -42], falls 151.0025 to [y = 109.0025], is below the bottom and is
    removed in that same update: no tile is left and [lives] goes from 3
    to 2. *)
Lemma low_canvas_first_tile_lost :
  valid_rand r_fast /\
  spawnInterval (init 800 100) = 900 /\ tileSpeed (init 800 100) = 110 /\
  lives (init 800 100) = 3%Z /\
  tiles (update r_fast 0.95 (init 800 100)) = [] /\
  lives (update r_fast 0.95 (init 800 100)) = 2%Z.
Proof.
  split.
  { unfold valid_rand, unit_draw. cbn.
    repeat split; discriminate || reflexivity. }
  do 3 (split; [reflexivity|]).
  split; vm_compute; reflexivity.
Qed.

Lemma valid_r0 : valid_rand r0.
Proof. unfold valid_rand, unit_draw. cbn. repeat split; discriminate || reflexivity. Defined.

Lemma spawn_at_most_one_witness :
  let s0 := init 800 600 in
  (exists t, tiles (update r0 0.95 s0) = [t]) /\
  lastSpawn (update r0 0.95 s0) = 0 /\
  lives (update r0 0.95 s0) = 3%Z.
Proof.
  assert (H118 : 118 <= 600) by discriminate.
  destruct (proj2 (proj2 (spawn_at_most_one r0 0 (init 800 600)))
              valid_r0 800 600 H118) as (_ & _ & _ & _ & H).
  exact H.
Defined.

(** ** Pointer input *)

Lemma hit_by_click_middle (pre suf : list Tile.t) (t : Tile.t) (s : State) :
  tiles s = pre ++ t :: suf ->
  hit_by_click (List.length pre) s
  = emit HitSound (updateUI (set_score (score s + 1) (set_tiles (pre ++ suf) s))).
Proof.
  intros Ht. unfold hit_by_click. now rewrite Ht, splice1_middle.
Qed.

(** The click loop, started below a suffix [suf] that holds no tile under
    the pointer: it stops at the last tile of [pre] under the pointer, or
    runs to the end when there is none. *)
Lemma click_loop_spec (px py : Q) (pre : list Tile.t) :
  forall (suf : list Tile.t) (s : State),
    tiles s = pre ++ suf ->
    (forall u, In u suf -> Tile.isPointInside u px py = false) ->
    match click_loop px py (List.length pre) s with
    | Some s' =>
        exists p t q,
          tiles s = p ++ t :: q /\
          Tile.isPointInside t px py = true /\
          (forall u, In u q -> Tile.isPointInside u px py = false) /\
          s' = hit_by_click (List.length p) s
    | None => forall u, In u (tiles s) -> Tile.isPointInside u px py = false
    end.
Proof.
  induction pre as [|t pre IH] using rev_ind; intros suf s Ht Hsuf.
  - cbn. intros u Hu. rewrite Ht in Hu. auto.
  - rewrite length_app, Nat.add_1_r. cbn [click_loop].
    rewrite <- app_assoc in Ht. cbn [app] in Ht.
    assert (Hn : nth_error (tiles s) (List.length pre) = Some t)
      by (rewrite Ht; apply nth_error_middle).
    rewrite Hn.
    destruct (Tile.isPointInside t px py) eqn:E.
    + exists pre, t, suf. auto.
    + apply (IH (t :: suf) s Ht).
      intros u [<- | Hu]; auto.
Qed.

(** The shape of a click that lands on a tile. *)
Lemma click_hit (px py : Q) (s : State) :
  running s = true ->
  (exists t, In t (tiles s) /\ Tile.isPointInside t px py = true) ->
  exists pre t suf,
    tiles s = pre ++ t :: suf /\
    Tile.isPointInside t px py = true /\
    (forall u, In u suf -> Tile.isPointInside u px py = false) /\
    click px py s
    = emit HitSound (updateUI (set_score (score s + 1) (set_tiles (pre ++ suf) s))).
Proof.
  intros Hrun (t0 & Hin & Hinside).
  unfold click. rewrite Hrun. cbn [negb].
  pose proof (click_loop_spec px py (tiles s) [] s) as H.
  rewrite app_nil_r in H. specialize (H eq_refl).
  destruct (click_loop px py (List.length (tiles s)) s) as [s'|].
  - destruct H as (p & t & q & Ht & Hi & Hq & ->); [intros u []|].
    exists p, t, q. repeat split; auto. now apply (hit_by_click_middle p q t).
  - rewrite H in Hinside; [discriminate | intros u [] | assumption].
Qed.

(** C3.  While the game runs, a click that lies in the box of some tile
    removes the tile latest in spawn order among those whose box contains
    the point (every tile after it in the array misses the point), keeps all
    other tiles in their order and adds exactly 1 to the score; a click
    that lies in no box applies the miss penalty. *)
Theorem click_removes_newest_hit (px py : Q) (s : State) :
  running s = true ->
  ((exists t, In t (tiles s) /\ Tile.isPointInside t px py = true) ->
   exists pre t suf,
     tiles s = pre ++ t :: suf /\
     Tile.isPointInside t px py = true /\
     (forall u, In u suf -> Tile.isPointInside u px py = false) /\
     tiles (click px py s) = pre ++ suf /\
     score (click px py s) = (score s + 1)%Z)
  /\
  ((forall t, In t (tiles s) -> Tile.isPointInside t px py = false) ->
   click px py s = penalizeMiss s).
Proof.
  intros Hrun. split.
  - intros Hex.
    destruct (click_hit px py s Hrun Hex) as (pre & t & suf & Ht & Hi & Hs & ->).
    exists pre, t, suf. repeat split; auto.
  - intros Hnone. unfold click. rewrite Hrun. cbn [negb].
    pose proof (click_loop_spec px py (tiles s) [] s) as H.
    rewrite app_nil_r in H. specialize (H eq_refl).
    destruct (click_loop px py (List.length (tiles s)) s) as [s'|]; [|reflexivity].
    destruct H as (p & t & q & Ht & Hi & _); [intros u []|].
    rewrite Hnone in Hi; [discriminate|].
    rewrite Ht. apply in_elt.
Qed.

(** C10.  A click that lands on a tile changes the tile array by removing
    that one tile and the score by adding 1, and writes nothing else of the
    game state: lives, spawn interval, base speed, spawn accumulator,
    running flag, timers, difficulty and field size stay as they were. *)
Theorem click_hit_frame (px py : Q) (s : State) :
  running s = true ->
  (exists t, In t (tiles s) /\ Tile.isPointInside t px py = true) ->
  let s' := click px py s in
  (exists pre t suf, tiles s = pre ++ t :: suf /\ tiles s' = pre ++ suf) /\
  score s' = (score s + 1)%Z /\
  lives s' = lives s /\
  spawnInterval s' = spawnInterval s /\
  tileSpeed s' = tileSpeed s /\
  lastSpawn s' = lastSpawn s /\
  running s' = running s /\
  lastTime s' = lastTime s /\
  flashTime s' = flashTime s /\
  difficulty s' = difficulty s /\
  width s' = width s /\ height s' = height s /\
  overlayDiff s' = overlayDiff s /\ rafPending s' = rafPending s.
Proof.
  intros Hrun Hex. cbn zeta.
  destruct (click_hit px py s Hrun Hex) as (pre & t & suf & Ht & _ & _ & ->).
  split; [exists pre, t, suf; auto|].
  repeat split.
Qed.

Lemma click_removes_newest_hit_witness :
  tiles (click 130 220 two_tiles) = [tileA] /\
  score (click 130 220 two_tiles) = 1%Z.
Proof.
  destruct (click_removes_newest_hit 130 220 two_tiles eq_refl) as (H & _).
  destruct H as (pre & t & suf & Ht & Hi & Hs & Htiles & Hscore).
  - exists tileA. split; [now left | reflexivity].
  - split; [reflexivity | exact Hscore].
Defined.

Lemma click_hit_frame_witness :
  lives (click 130 220 two_tiles) = 3%Z /\
  tileSpeed (click 130 220 two_tiles) = 110.
Proof.
  assert (Hex : exists t, In t (tiles two_tiles)
                          /\ Tile.isPointInside t 130 220 = true).
  { exists tileA. split; [now left | reflexivity]. }
  pose proof (click_hit_frame 130 220 two_tiles eq_refl Hex) as H.
  cbn zeta in H.
  destruct H as (_ & _ & Hl & _ & Hsp & _).
  split; [exact Hl | exact Hsp].
Defined.

(** ** Key input *)

Section KeyScan.
Variables hitY fieldBottom : Q.

Lemma key_scan_spec (l : list Tile.t) :
  forall (seen : list Tile.t) (candidateIndex : Z) (bestY : option Q),
    scan_inv hitY fieldBottom seen candidateIndex bestY ->
    exists bestY',
      scan_inv hitY fieldBottom (seen ++ l)
        (key_scan hitY fieldBottom l (Z.of_nat (List.length seen))
           candidateIndex bestY)
        bestY'.
Proof.
  induction l as [|t l IH]; intros seen c b Hinv.
  - exists b. now rewrite app_nil_r.
  - cbn [key_scan].
    replace (Z.of_nat (List.length seen) + 1)%Z
      with (Z.of_nat (List.length (seen ++ [t])))
      by (rewrite length_app; cbn; lia).
    replace (seen ++ t :: l) with ((seen ++ [t]) ++ l)
      by (now rewrite <- app_assoc).
    destruct (in_hit_zone hitY fieldBottom t) eqn:Ez; cbn [andb].
    + destruct (above_best (Tile.y t + Tile.h t) b) eqn:Eb.
      * apply IH. right. exists seen, t, []. repeat split; auto.
        -- intros u Hu Hzu.
           destruct Hinv as [(_ & _ & Hno) | (p & t0 & q & -> & _ & -> & Hz0 & Hp & Hq)].
           ++ now apply Hno in Hu.
           ++ cbn in Eb. apply Qgtb_true in Eb.
              apply in_app_or in Hu. destruct Hu as [Hu | [<- | Hu]].
              ** eapply Qlt_trans; [apply (Hp u Hu Hzu) | exact Eb].
              ** exact Eb.
              ** eapply Qle_lt_trans; [apply (Hq u Hu Hzu) | exact Eb].
        -- intros u [].
      * apply IH.
        destruct Hinv as [(_ & -> & _) | (p & t0 & q & -> & -> & -> & Hz0 & Hp & Hq)];
          [discriminate|].
        right. exists p, t0, (q ++ [t]).
        rewrite <- app_assoc. repeat split; auto.
        intros u Hu Hzu. apply in_app_or in Hu.
        destruct Hu as [Hu | [<- | []]]; [now apply Hq|].
        cbn in Eb. now apply Qgtb_false in Eb.
    + apply IH.
      destruct Hinv as [(-> & -> & Hno) | (p & t0 & q & -> & -> & -> & Hz0 & Hp & Hq)].
      * left. repeat split; auto.
        intros u Hu. apply in_app_or in Hu.
        destruct Hu as [Hu | [<- | []]]; [now apply Hno|].
        unfold in_zone. now rewrite Ez.
      * right. exists p, t0, (q ++ [t]).
        rewrite <- app_assoc. repeat split; auto.
        intros u Hu Hzu. apply in_app_or in Hu.
        destruct Hu as [Hu | [<- | []]]; [now apply Hq|].
        unfold in_zone in Hzu. congruence.
Qed.

Lemma in_hit_zone_iff (t : Tile.t) :
  in_zone hitY fieldBottom t
  <-> hitY <= Tile.y t + Tile.h t /\ Tile.y t <= fieldBottom.
Proof.
  unfold in_zone, in_hit_zone, Qgeb.
  now rewrite andb_true_iff, !Qle_bool_iff.
Qed.
End KeyScan.

Lemma keydown_hit_key (key code : string) (s : State) :
  running s = true ->
  code = "Space"%string \/ key = "ArrowDown"%string ->
  keydown key code s
  = let c := key_scan (height s - hitZoneHeight) (height s) (tiles s)
               0%Z (-1)%Z None in
    if (0 <=? c)%Z then hit_by_key c s else penalizeMiss s.
Proof.
  intros Hrun Hkey. unfold keydown. rewrite Hrun. cbn [negb].
  assert (E : String.eqb code "Space" || String.eqb key "ArrowDown" = true).
  { destruct Hkey as [-> | ->]; rewrite String.eqb_refl;
      [reflexivity | apply orb_true_r]. }
  now rewrite E.
Qed.

Lemma hit_by_key_middle (pre suf : list Tile.t) (t : Tile.t) (s : State) :
  tiles s = pre ++ t :: suf ->
  let s' := hit_by_key (Z.of_nat (List.length pre)) s in
  tiles s' = pre ++ suf /\ score s' = (score s + 1)%Z /\ lives s' = lives s /\
  tileSpeed s' = tileSpeed s * 1.002 /\
  spawnInterval s'
  = (if Qgtb (spawnInterval s) 380 then spawnInterval s * 0.998
     else spawnInterval s) /\
  running s' = running s /\ lastSpawn s' = lastSpawn s.
Proof.
  intros Ht. cbn zeta. unfold hit_by_key.
  rewrite Nat2Z.id, Ht, splice1_middle. cbn.
  destruct (Qgtb (spawnInterval s) 380); cbn; repeat split.
Qed.

(** C4 (as the code has it).  While the game runs, Space or ArrowDown looks
    at the tiles with [y + h >= height - hitZoneHeight] and [y <= height].
    If there is one, the handler removes the one with the greatest [y + h],
    the first in spawn order among equals, keeps the others in order, adds
    1 to the score, leaves the lives alone, multiplies the base speed by
    1.002 and multiplies the spawn interval by 0.998 when that interval is
    above 380, leaving it as it is otherwise.  If there is none, the miss
    penalty is applied. *)
Theorem key_hit_selects_lowest (key code : string) (s : State) :
  running s = true ->
  code = "Space"%string \/ key = "ArrowDown"%string ->
  let zone t :=
    height s - hitZoneHeight <= Tile.y t + Tile.h t /\ Tile.y t <= height s in
  let bottom t := Tile.y t + Tile.h t in
  let s' := keydown key code s in
  ((exists t, In t (tiles s) /\ zone t) ->
   exists pre t suf,
     tiles s = pre ++ t :: suf /\ zone t /\
     (forall u, In u pre -> zone u -> bottom u < bottom t) /\
     (forall u, In u suf -> zone u -> bottom u <= bottom t) /\
     tiles s' = pre ++ suf /\
     score s' = (score s + 1)%Z /\
     lives s' = lives s /\
     tileSpeed s' = tileSpeed s * 1.002 /\
     (380 < spawnInterval s -> spawnInterval s' = spawnInterval s * 0.998) /\
     (spawnInterval s <= 380 -> spawnInterval s' = spawnInterval s))
  /\
  ((forall t, In t (tiles s) -> ~ zone t) -> s' = penalizeMiss s).
Proof.
  intros Hrun Hkey. cbn zeta.
  rewrite (keydown_hit_key key code s Hrun Hkey). cbn zeta.
  set (hitY := height s - hitZoneHeight).
  destruct (key_scan_spec hitY (height s) (tiles s) [] (-1)%Z None)
    as (b & Hinv).
  { left. repeat split. intros u []. }
  cbn [app List.length Z.of_nat] in Hinv.
  destruct Hinv as [(Hc & _ & Hno) | (p & t & q & Ht & Hc & _ & Hz & Hp & Hq)];
    rewrite Hc.
  - split.
    + intros (t & Hin & Hzt). exfalso. apply (Hno t Hin).
      now apply in_hit_zone_iff.
    + reflexivity.
  - assert (Hpos : (0 <=? Z.of_nat (List.length p))%Z = true)
      by (apply Z.leb_le; lia).
    rewrite Hpos. split.
    + intros _.
      destruct (hit_by_key_middle p q t s Ht) as (T1 & T2 & T3 & T4 & T5 & _).
      exists p, t, q.
      split; [exact Ht|]. split; [now apply in_hit_zone_iff|].
      split; [intros u Hu Hzu; apply Hp; [|apply in_hit_zone_iff]; assumption|].
      split; [intros u Hu Hzu; apply Hq; [|apply in_hit_zone_iff]; assumption|].
      do 4 (split; [assumption|]).
      split; intros Hs.
      * apply Qgtb_true in Hs. now rewrite Hs in T5.
      * apply Qgtb_false in Hs. now rewrite Hs in T5.
    + intros Hnone. exfalso. apply (Hnone t).
      * rewrite Ht. apply in_elt.
      * now apply in_hit_zone_iff.
Qed.

Lemma key_hit_selects_lowest_witness :
  tiles (keydown " " "Space" three_in_zone) = [k1; k3] /\
  score (keydown " " "Space" three_in_zone) = 1%Z /\
  spawnInterval (keydown " " "Space" three_in_zone) = 900 * 0.998.
Proof.
  destruct (key_hit_selects_lowest " " "Space" three_in_zone eq_refl
              (or_introl eq_refl)) as (H & _).
  destruct H as (pre & t & suf & _ & _ & _ & _ & _ & Hscore & _ & _ & Hsp & _).
  - exists k1. split; [now left | split; discriminate].
  - split; [reflexivity|]. split; [exact Hscore|].
    apply Hsp. reflexivity.
Defined.

(** C4, the claim as written fails: 380 is not a floor of the spawn
    interval under the key-hit escalation.  From an interval of 380.5 one
    key hit leads to 379.739. *)
Lemma key_hit_below_floor :
  let s := set_spawnInterval 380.5 three_in_zone in
  running s = true /\
  tiles (keydown " " "Space" s) = [k1; k3] /\
  ~ 380 <= spawnInterval (keydown " " "Space" s).
Proof.
  cbn zeta. split; [reflexivity|]. split; [reflexivity|].
  apply Qlt_not_le. reflexivity.
Qed.

(** ** The miss penalty *)

Lemma penalizeMiss_fields (s : State) :
  let s' := penalizeMiss s in
  lives s' = (lives s - 1)%Z /\
  tileSpeed s' = tileSpeed s * 1.06 /\
  spawnInterval s'
  = (if Qgtb (spawnInterval s) 280 then spawnInterval s * 0.92
     else spawnInterval s) /\
  running s' = (if (lives s - 1 <=? 0)%Z then false else running s) /\
  tiles s' = tiles s /\ score s' = score s.
Proof.
  cbn zeta. unfold penalizeMiss. cbn.
  destruct (Qgtb (spawnInterval s) 280); cbn;
    destruct (lives s - 1 <=? 0)%Z; cbn; repeat split.
Qed.

(** C6 (as the code has it).  Every miss penalty multiplies the base speed
    by 1.06, which is a strict increase for a positive speed.  It
    multiplies the spawn interval by 0.92, a strict decrease, exactly when
    the interval is above 280, and leaves an interval of 280 or less as it
    is; the result of a penalty on an interval above 280 is above 257.6
    (280 times 0.92), not above 280. *)
Theorem miss_penalty_escalation (s : State) :
  let s' := penalizeMiss s in
  tileSpeed s' = tileSpeed s * 1.06 /\
  (0 < tileSpeed s -> tileSpeed s < tileSpeed s') /\
  (280 < spawnInterval s ->
     spawnInterval s' = spawnInterval s * 0.92 /\
     spawnInterval s' < spawnInterval s /\
     257.6 < spawnInterval s') /\
  (spawnInterval s <= 280 -> spawnInterval s' = spawnInterval s).
Proof.
  cbn zeta.
  destruct (penalizeMiss_fields s) as (_ & Hsp & Hint & _).
  split; [exact Hsp|]. split; [|split].
  - intros Hpos. rewrite Hsp. lra.
  - intros Habove. apply Qgtb_true in Habove as Hb. rewrite Hb in Hint.
    rewrite Hint. repeat split; lra.
  - intros Hbelow. apply Qgtb_false in Hbelow. now rewrite Hbelow in Hint.
Qed.

Lemma miss_penalty_escalation_witness :
  tileSpeed (init 800 600) < tileSpeed (penalizeMiss (init 800 600)) /\
  spawnInterval (penalizeMiss (init 800 600)) = 900 * 0.92 /\
  spawnInterval (penalizeMiss (set_spawnInterval 280 (init 800 600))) = 280.
Proof.
  destruct (miss_penalty_escalation (init 800 600)) as (_ & Hup & Hdown & _).
  destruct (miss_penalty_escalation (set_spawnInterval 280 (init 800 600)))
    as (_ & _ & _ & Hflat).
  split; [apply Hup; reflexivity|].
  split; [apply Hdown; reflexivity | apply Hflat; discriminate].
Defined.

(** C6, the claim as written fails: the spawn interval does go below 280.
    A penalty on an interval of 300 leads to 276. *)
Lemma miss_penalty_below_floor :
  let s := set_spawnInterval 300 (init 800 600) in
  running s = true /\
  ~ 280 <= spawnInterval (penalizeMiss s).
Proof.
  cbn zeta. split; [reflexivity|]. apply Qlt_not_le. reflexivity.
Qed.

Lemma escalation_of_handlers (c : Z) (s : State) :
  spawnInterval (hit_by_key c s) = key_escalation (spawnInterval s) /\
  spawnInterval (penalizeMiss s) = miss_escalation (spawnInterval s).
Proof.
  split.
  - unfold hit_by_key, key_escalation. cbn.
    destruct (Qgtb (spawnInterval s) 380); reflexivity.
  - destruct (penalizeMiss_fields s) as (_ & _ & H & _). exact H.
Qed.

(** The key-hit escalation alone takes the interval of the normal profile
    from 900 to below 380 (431 hits), and four miss penalties from there
    end below 280. *)
Lemma escalation_passes_both_floors :
  Nat.iter 431 key_escalation 900 < 380 /\
  Nat.iter 4 miss_escalation (Nat.iter 431 key_escalation 900) < 280.
Proof. split; vm_compute; reflexivity. Qed.

(** ** Starting *)

(** C7 (as the code has it).  The keyboard start is guarded: Enter, pressed
    while the game runs, changes nothing, and no frame callback is
    scheduled; pressed while the game does not run, it is [startGame]. *)
Theorem enter_while_running_noop (code : string) (s : State) :
  code <> "Space"%string ->
  (running s = true -> keydown "Enter" code s = s) /\
  (running s = false -> keydown "Enter" code s = startGame s).
Proof.
  intros Hcode. unfold keydown. split; intros ->; cbn.
  - apply String.eqb_neq in Hcode. now rewrite Hcode.
  - reflexivity.
Qed.

Lemma enter_while_running_noop_witness :
  keydown "Enter" "Enter" two_tiles = two_tiles.
Proof.
  apply (enter_while_running_noop "Enter" two_tiles).
  - discriminate.
  - reflexivity.
Defined.

(** C7, the claim as written fails: [startGame] has no guard of its own.
    Called in a running game with two tiles (as the handler of the restart
    button does), it empties the tile array and hands one more callback to
    [requestAnimationFrame]. *)
Lemma startGame_while_running_resets :
  running two_tiles = true /\
  startGame two_tiles <> two_tiles /\
  tiles (startGame two_tiles) = [] /\
  rafPending (startGame two_tiles) = S (rafPending two_tiles) /\
  step RestartClick two_tiles <> two_tiles.
Proof.
  assert (Hne : forall s', tiles s' = [] -> s' <> two_tiles).
  { intros s' He Heq. rewrite Heq in He. discriminate He. }
  split; [reflexivity|].
  split; [apply Hne; vm_compute; reflexivity|].
  split; [vm_compute; reflexivity|].
  split; [vm_compute; reflexivity | apply Hne; vm_compute; reflexivity].
Qed.

(** ** Elapsed time *)





(** ** Lives and the end of a run *)

Lemma run_app (l1 l2 : list Input) (s : State) :
  run (l1 ++ l2) s = run l2 (run l1 s).
Proof. apply fold_left_app. Qed.

Lemma run_reachable (l : list Input) :
  forall s, reachable s -> reachable (run l s).
Proof.
  induction l as [|i l IH]; intros s Hs; [exact Hs|].
  apply IH. now apply reachable_step.
Qed.

Lemma after_stall_reachable : reachable after_stall.
Proof.
  apply reachable_step. apply run_reachable. apply reachable_init.
Qed.

(** C1, evaluated.  After three seconds of play three tiles are falling and
    all 3 lives are left; the frame after a stall of 100 s spawns a fourth
    tile and moves all four below the bottom, and the miss loop takes a
    life for each: [lives] ends at -1 in a reachable state. *)
Theorem lives_go_negative :
  reachable after_stall /\
  running before_stall = true /\ lives before_stall = 3%Z /\
  List.length (tiles before_stall) = 3%nat /\
  lives after_stall = (-1)%Z /\ running after_stall = false.
Proof.
  split; [exact after_stall_reachable|].
  do 4 (split; [vm_compute; reflexivity|]).
  vm_compute; reflexivity.
Qed.

(** C9, evaluated.  In that same frame [endGame] runs twice: once for the
    tile that takes [lives] to 0 and once more for the tile after it, so
    the game-over effects (final score, death sound) are sent twice within
    one update. *)
Theorem game_over_sent_twice :
  game_overs (effects before_stall) = 0%nat /\
  game_overs (effects after_stall) = 2%nat /\
  effects after_stall
  = [DeathSound; ShowGameOver 0; ShowScore 0 (-1); MissSound;
     DeathSound; ShowGameOver 0; ShowScore 0 0; MissSound;
     ShowScore 0 1; MissSound; ShowScore 0 2; MissSound]
    ++ effects before_stall.
Proof.
  split; [vm_compute; reflexivity|].
  split; vm_compute; reflexivity.
Qed.

Lemma stopped_same (s s' : State) :
  lives s' = lives s -> running s' = running s ->
  stopped_when_exhausted s -> stopped_when_exhausted s'.
Proof. unfold stopped_when_exhausted. intros -> ->. auto. Qed.

Lemma stopped_alive (s : State) :
  (0 < lives s)%Z -> stopped_when_exhausted s.
Proof. unfold stopped_when_exhausted. lia. Qed.

Lemma profile_lives_pos (mode : string) :
  (0 < Profile.lives (difficultySettings mode))%Z.
Proof.
  unfold difficultySettings.
  destruct (String.eqb mode "easy"); [reflexivity|].
  destruct (String.eqb mode "hard"); reflexivity.
Qed.

Lemma startGame_stopped (s : State) : stopped_when_exhausted (startGame s).
Proof. apply stopped_alive. cbn. apply profile_lives_pos. Qed.

Lemma penalizeMiss_stopped (s : State) :
  stopped_when_exhausted (penalizeMiss s).
Proof.
  destruct (penalizeMiss_fields s) as (Hl & _ & _ & Hr & _).
  unfold stopped_when_exhausted. rewrite Hl, Hr. intros Hle.
  apply Z.leb_le in Hle. now rewrite Hle.
Qed.

Lemma update_body_stopped (dt : Q) (i : nat) (s : State) :
  stopped_when_exhausted s -> stopped_when_exhausted (update_body dt i s).
Proof.
  intros Hs. unfold update_body.
  destruct (nth_error (tiles s) i) as [t|]; [|exact Hs]. cbn.
  destruct (Qgtb (Tile.y t + Tile.speed t * dt) (height s)); [|exact Hs].
  destruct (lives s - 1 <=? 0)%Z eqn:E.
  - intros _. reflexivity.
  - apply stopped_alive. cbn. apply Z.leb_gt in E. exact E.
Qed.

Lemma update_loop_stopped (dt : Q) (n : nat) :
  forall s, stopped_when_exhausted s ->
            stopped_when_exhausted (update_loop dt n s).
Proof.
  induction n as [|n IH]; intros s Hs; [exact Hs|].
  cbn [update_loop]. apply IH. now apply update_body_stopped.
Qed.

Lemma gameLoop_stopped (r : Rand) (ts : Q) (s : State) :
  stopped_when_exhausted s -> stopped_when_exhausted (gameLoop r ts s).
Proof.
  intros Hs. unfold gameLoop.
  destruct (running s); cbn [negb]; [|exact Hs].
  set (s2 := update r (frame_dt ts s) (set_lastTime ts s)).
  assert (H2 : stopped_when_exhausted s2).
  { unfold s2, update, update_tiles. apply update_loop_stopped.
    destruct (spawn_step_keeps r (frame_dt ts s) (set_lastTime ts s))
      as (Hl & _ & Hr & _).
    now apply (stopped_same s). }
  destruct (Qgtb (flashTime s2) 0); now apply (stopped_same s2).
Qed.

Lemma click_stopped (px py : Q) (s : State) :
  stopped_when_exhausted s -> stopped_when_exhausted (click px py s).
Proof.
  intros Hs. unfold click. destruct (running s) eqn:Hrun; cbn [negb]; [|exact Hs].
  pose proof (click_loop_spec px py (tiles s) [] s) as H.
  rewrite app_nil_r in H. specialize (H eq_refl).
  destruct (click_loop px py (List.length (tiles s)) s) as [s'|].
  - destruct H as (p & t & q & _ & _ & _ & ->); [intros u []|].
    now apply (stopped_same s).
  - apply penalizeMiss_stopped.
Qed.

Lemma hit_by_key_stopped (c : Z) (s : State) :
  stopped_when_exhausted s -> stopped_when_exhausted (hit_by_key c s).
Proof.
  intros Hs. unfold hit_by_key. cbn.
  destruct (Qgtb (spawnInterval s) 380); now apply (stopped_same s).
Qed.

Lemma keydown_stopped (key code : string) (s : State) :
  stopped_when_exhausted s -> stopped_when_exhausted (keydown key code s).
Proof.
  intros Hs. unfold keydown. destruct (running s); cbn [negb].
  - destruct (String.eqb code "Space" || String.eqb key "ArrowDown"); [|exact Hs].
    destruct (0 <=? _)%Z;
      [now apply hit_by_key_stopped | apply penalizeMiss_stopped].
  - destruct (String.eqb key "Enter"); [apply startGame_stopped | exact Hs].
Qed.

Lemma difficultyChange_stopped (value : string) (s : State) :
  stopped_when_exhausted s ->
  stopped_when_exhausted (difficultyChange value s).
Proof.
  intros Hs. unfold difficultyChange. cbn. destruct (running s) eqn:Hrun; cbn.
  - apply (stopped_same s); [reflexivity | | exact Hs]. cbn. now rewrite Hrun.
  - apply stopped_alive. cbn. apply profile_lives_pos.
Qed.

Lemma step_stopped (i : Input) (s : State) :
  stopped_when_exhausted s -> stopped_when_exhausted (step i s).
Proof.
  intros Hs. destruct i as [r ts | px py | key code | | v | v | w h]; cbn [step].
  - destruct (rafPending s) as [|n] eqn:E; [exact Hs|].
    apply gameLoop_stopped. now apply (stopped_same s).
  - now apply click_stopped.
  - now apply keydown_stopped.
  - apply startGame_stopped.
  - now apply difficultyChange_stopped.
  - now apply (stopped_same s).
  - now apply (stopped_same s).
Qed.

(** The part of the lives invariant that the code keeps: in every
    reachable state, [lives <= 0] implies that the game is not running (in
    particular [lives = 0] does). *)
Theorem exhausted_lives_stop_the_run (s : State) :
  reachable s -> (lives s <= 0)%Z -> running s = false.
Proof.
  intros Hreach. change (stopped_when_exhausted s).
  induction Hreach as [w h | i s _ IH].
  - apply startGame_stopped.
  - now apply step_stopped.
Qed.

Lemma exhausted_lives_stop_the_run_witness : running after_stall = false.
Proof.
  apply (exhausted_lives_stop_the_run after_stall after_stall_reachable).
  vm_compute. discriminate.
Defined.

(** ** What a frame update leaves alone *)

Lemma spawn_step_settings (r : Rand) (dt : Q) (s : State) :
  let s1 := spawn_step r dt s in
  lastTime s1 = lastTime s /\ difficulty s1 = difficulty s /\
  flashTime s1 = flashTime s /\ width s1 = width s /\
  rafPending s1 = rafPending s /\ overlayDiff s1 = overlayDiff s.
Proof.
  cbn zeta. unfold spawn_step. cbn [set_lastSpawn lastSpawn spawnInterval].
  destruct (Qgtb (lastSpawn s + dt * 1000) (spawnInterval s));
    cbn; repeat split.
Qed.

Lemma update_fields (r : Rand) (dt : Q) (s : State) :
  let s' := update r dt s in
  score s' = score s /\ spawnInterval s' = spawnInterval s /\
  tileSpeed s' = tileSpeed s /\ difficulty s' = difficulty s /\
  flashTime s' = flashTime s /\ lastTime s' = lastTime s /\
  width s' = width s /\ height s' = height s /\
  rafPending s' = rafPending s /\ (lives s' <= lives s)%Z.
Proof.
  cbn zeta. unfold update.
  destruct (spawn_step_keeps r dt s) as (K1 & K2 & _ & K4 & K5 & K6 & _).
  destruct (spawn_step_settings r dt s) as (S1 & S2 & S3 & S4 & S5 & _).
  destruct (update_tiles_spec dt (spawn_step r dt s)) as (Hs & _ & Hl).
  destruct Hs as (_ & U2 & U3 & U4 & U5 & U6 & U7 & U8 & U9 & U10).
  repeat split; try congruence.
  rewrite Hl, K1. lia.
Qed.

(** A tile that falls past the bottom costs a life and nothing else:
    [update] never writes the score, the spawn interval, the base speed,
    the difficulty, the flash timer, the field size or the frame
    bookkeeping, and it never adds a life. *)
Theorem update_leaves_settings (r : Rand) (dt : Q) (s : State) :
  let s' := update r dt s in
  score s' = score s /\ spawnInterval s' = spawnInterval s /\
  tileSpeed s' = tileSpeed s /\ difficulty s' = difficulty s /\
  flashTime s' = flashTime s /\ lastTime s' = lastTime s /\
  width s' = width s /\ height s' = height s /\
  rafPending s' = rafPending s /\ (lives s' <= lives s)%Z.
Proof. exact (update_fields r dt s). Qed.

(** ** Bounds kept in every reachable state *)

Lemma profile_bounds (mode : string) :
  let p := difficultySettings mode in
  257.6 < Profile.spawnInterval p /\ Profile.spawnInterval p <= 1300 /\
  70 <= Profile.tileSpeed p /\
  (0 < Profile.lives p <= 5)%Z /\
  0 < Profile.minMult p /\ Profile.minMult p <= Profile.maxMult p.
Proof.
  cbn zeta. unfold difficultySettings.
  destruct (String.eqb mode "easy"); [|destruct (String.eqb mode "hard")];
    cbn; repeat split; try lia; try reflexivity; discriminate.
Qed.

Lemma startGame_fields (s : State) :
  let p := difficultySettings (difficulty s) in
  let s' := startGame s in
  tiles s' = [] /\ score s' = 0%Z /\ lives s' = Profile.lives p /\
  spawnInterval s' = Profile.spawnInterval p /\
  tileSpeed s' = Profile.tileSpeed p /\
  lastSpawn s' = 0 /\ lastTime s' = 0 /\ running s' = true /\
  difficulty s' = difficulty s /\ flashTime s' = flashTime s /\
  width s' = width s /\ height s' = height s /\
  rafPending s' = S (rafPending s).
Proof. cbn. repeat split. Qed.

Lemma hit_by_key_fields (c : Z) (s : State) :
  let s' := hit_by_key c s in
  score s' = (score s + 1)%Z /\ lives s' = lives s /\
  tileSpeed s' = tileSpeed s * 1.002 /\
  spawnInterval s' = key_escalation (spawnInterval s) /\
  running s' = running s /\ flashTime s' = flashTime s /\
  rafPending s' = rafPending s /\
  game_overs (effects s') = game_overs (effects s).
Proof.
  cbn zeta. unfold hit_by_key, key_escalation. cbn.
  destruct (Qgtb (spawnInterval s) 380); cbn; repeat split.
Qed.

Lemma penalizeMiss_more (s : State) :
  let s' := penalizeMiss s in
  flashTime s' = 0.22 /\ rafPending s' = rafPending s /\
  game_overs (effects s')
  = (game_overs (effects s) + if (lives s - 1 <=? 0)%Z then 1 else 0)%nat.
Proof.
  cbn zeta. unfold penalizeMiss. cbn.
  destruct (Qgtb (spawnInterval s) 280); cbn;
    destruct (lives s - 1 <=? 0)%Z; cbn; repeat split; lia.
Qed.

Lemma key_escalation_bounds (v : Q) :
  257.6 < v -> v <= 1300 ->
  257.6 < key_escalation v /\ key_escalation v <= 1300.
Proof.
  intros Hlo Hhi. unfold key_escalation.
  destruct (Qgtb v 380) eqn:E; [apply Qgtb_true in E|]; split; lra.
Qed.

Lemma miss_escalation_bounds (v : Q) :
  257.6 < v -> v <= 1300 ->
  257.6 < miss_escalation v /\ miss_escalation v <= 1300.
Proof.
  intros Hlo Hhi. unfold miss_escalation.
  destruct (Qgtb v 280) eqn:E; [apply Qgtb_true in E|]; split; lra.
Qed.

(** The click and key handlers, case by case. *)
Lemma click_cases (px py : Q) (s : State) :
  click px py s = s \/ click px py s = penalizeMiss s \/
  exists i, click px py s = hit_by_click i s.
Proof.
  unfold click. destruct (running s); cbn [negb]; [|now left].
  pose proof (click_loop_spec px py (tiles s) [] s) as H.
  rewrite app_nil_r in H. specialize (H eq_refl).
  destruct (click_loop px py (List.length (tiles s)) s) as [s'|].
  - destruct H as (p & t & q & _ & _ & _ & ->); [intros u []|].
    right. right. eauto.
  - right. now left.
Qed.

Lemma keydown_cases (key code : string) (s : State) :
  keydown key code s = s \/ keydown key code s = penalizeMiss s \/
  (exists c, keydown key code s = hit_by_key c s) \/
  (running s = false /\ keydown key code s = startGame s).
Proof.
  unfold keydown. destruct (running s); cbn [negb].
  - destruct (String.eqb code "Space" || String.eqb key "ArrowDown");
      [|now left].
    destruct (0 <=? _)%Z; [right; right; left; eauto | right; now left].
  - destruct (String.eqb key "Enter"); [right; right; right; auto | now left].
Qed.

Lemma gameLoop_fields (r : Rand) (ts : Q) (s : State) :
  running s = true ->
  let u := update r (frame_dt ts s) (set_lastTime ts s) in
  let s' := gameLoop r ts s in
  score s' = score u /\ lives s' = lives u /\ running s' = running u /\
  spawnInterval s' = spawnInterval u /\ tileSpeed s' = tileSpeed u /\
  rafPending s' = S (rafPending u) /\
  effects s' = effects u /\ tiles s' = tiles u /\
  (0 <= flashTime u -> 0 <= flashTime s').
Proof.
  intros Hrun. cbn zeta. unfold gameLoop. rewrite Hrun. cbn [negb].
  set (u := update r (frame_dt ts s) (set_lastTime ts s)).
  destruct (Qgtb (flashTime u) 0); cbn; repeat split; auto.
  intros _. apply Math_max_l.
Qed.

Lemma healthy_same (s s' : State) :
  spawnInterval s' = spawnInterval s -> tileSpeed s' = tileSpeed s ->
  score s' = score s -> lives s' = lives s -> flashTime s' = flashTime s ->
  running s' = running s -> rafPending s' = rafPending s ->
  healthy s -> healthy s'.
Proof.
  unfold healthy, escalation_bounds, counter_bounds, frame_pending.
  intros -> -> -> -> -> -> ->. auto.
Qed.

Lemma startGame_healthy (s : State) :
  0 <= flashTime s -> healthy (startGame s).
Proof.
  intros Hf.
  destruct (startGame_fields s)
    as (_ & F2 & F3 & F4 & F5 & _ & _ & F8 & _ & F10 & _ & _ & F13).
  destruct (profile_bounds (difficulty s)) as (B1 & B2 & B3 & B4 & _).
  unfold healthy, escalation_bounds, counter_bounds, frame_pending.
  rewrite F2, F3, F4, F5, F10, F13. repeat split; auto; lia.
Qed.

Lemma penalizeMiss_healthy (s : State) :
  healthy s -> healthy (penalizeMiss s).
Proof.
  intros ((E1 & E2 & E3) & (C1 & C2 & C3) & P).
  destruct (penalizeMiss_fields s) as (F1 & F2 & F3 & F4 & _ & F6).
  destruct (penalizeMiss_more s) as (M1 & M2 & _).
  fold (miss_escalation (spawnInterval s)) in F3.
  destruct (miss_escalation_bounds _ E1 E2) as (N1 & N2).
  unfold healthy, escalation_bounds, counter_bounds, frame_pending.
  rewrite F1, F2, F3, F4, F6, M1, M2.
  repeat split; auto; try lra; try lia.
  destruct (lives s - 1 <=? 0)%Z; [discriminate | exact P].
Qed.

Lemma hit_by_key_healthy (c : Z) (s : State) :
  healthy s -> healthy (hit_by_key c s).
Proof.
  intros ((E1 & E2 & E3) & (C1 & C2 & C3) & P).
  destruct (hit_by_key_fields c s) as (F1 & F2 & F3 & F4 & F5 & F6 & F7 & _).
  destruct (key_escalation_bounds _ E1 E2) as (N1 & N2).
  unfold healthy, escalation_bounds, counter_bounds, frame_pending.
  rewrite F1, F2, F3, F4, F5, F6, F7.
  repeat split; auto; try lra; lia.
Qed.

Lemma gameLoop_healthy (r : Rand) (ts : Q) (s : State) :
  escalation_bounds s -> counter_bounds s -> healthy (gameLoop r ts s).
Proof.
  intros (E1 & E2 & E3) (C1 & C2 & C3).
  destruct (running s) eqn:Hrun.
  - destruct (gameLoop_fields r ts s Hrun)
      as (G1 & G2 & G3 & G4 & G5 & G6 & _ & _ & G9).
    destruct (update_fields r (frame_dt ts s) (set_lastTime ts s))
      as (U1 & U2 & U3 & _ & U5 & _ & _ & _ & _ & U10).
    cbn [set_lastTime score spawnInterval tileSpeed flashTime lives]
      in U1, U2, U3, U5, U10.
    unfold healthy, escalation_bounds, counter_bounds, frame_pending.
    rewrite G1, G2, G4, G5, G6, U1, U2, U3.
    repeat split; auto; try lia.
    apply G9. now rewrite U5.
  - unfold gameLoop. rewrite Hrun. cbn [negb].
    unfold healthy, escalation_bounds, counter_bounds, frame_pending.
    rewrite Hrun. repeat split; auto. discriminate.
Qed.

Lemma difficultyChange_healthy (value : string) (s : State) :
  healthy s -> healthy (difficultyChange value s).
Proof.
  intros ((E1 & E2 & E3) & (C1 & C2 & C3) & P).
  destruct (profile_bounds value) as (B1 & B2 & B3 & B4 & _).
  unfold healthy, escalation_bounds, counter_bounds, frame_pending.
  unfold difficultyChange. cbn.
  destruct (running s) eqn:Hrun; cbn; rewrite ?Hrun;
    repeat split; auto; try lia; discriminate.
Qed.

Lemma step_healthy (i : Input) (s : State) :
  healthy s -> healthy (step i s).
Proof.
  intros H. destruct i as [r ts | px py | key code | | v | v | w h]; cbn [step].
  - destruct (rafPending s) as [|n] eqn:E; [exact H|].
    destruct H as (He & Hc & _). now apply gameLoop_healthy.
  - destruct (click_cases px py s) as [-> | [-> | (i & ->)]];
      [exact H | now apply penalizeMiss_healthy|].
    destruct H as ((E1 & E2 & E3) & (C1 & C2 & C3) & P).
    unfold healthy, escalation_bounds, counter_bounds, frame_pending. cbn.
    repeat split; auto; lia.
  - destruct (keydown_cases key code s) as [-> | [-> | [(c & ->) | (_ & ->)]]];
      [exact H | now apply penalizeMiss_healthy
       | now apply hit_by_key_healthy |].
    apply startGame_healthy. apply H.
  - apply startGame_healthy. cbn. apply H.
  - now apply difficultyChange_healthy.
  - now apply (healthy_same s).
  - now apply (healthy_same s).
Qed.

Lemma reachable_healthy (s : State) : reachable s -> healthy s.
Proof.
  induction 1 as [w h | i s _ IH].
  - apply startGame_healthy. cbn. discriminate.
  - now apply step_healthy.
Qed.

(** While the game is running a frame callback is always pending: the
    loop that [startGame] starts keeps itself going for as long as the run
    lasts. *)
Theorem running_has_pending_frame (s : State) :
  reachable s -> running s = true -> (1 <= rafPending s)%nat.
Proof. intros Hr. apply (reachable_healthy s Hr). Qed.

(** The difficulty in force always has a profile when the selectors only
    hold such names. *)
Lemma reachable_named_difficulty (s : State) :
  reachable_named s ->
  has_profile (difficulty s) /\
  (overlayDiff s = ""%string \/ has_profile (overlayDiff s)).
Proof.
  induction 1 as [w h | i s Hi _ (IHd & IHo)].
  - split; [|right]; right; left; reflexivity.
  - destruct i as [r ts | px py | key code | | v | v | w h]; cbn [step].
    + destruct (rafPending s) as [|n]; [now split|].
      assert (Hkeep :
        difficulty (gameLoop r ts (set_rafPending n s)) = difficulty s /\
        (overlayDiff (gameLoop r ts (set_rafPending n s)) = overlayDiff s \/
         overlayDiff (gameLoop r ts (set_rafPending n s)) = difficulty s)).
      { unfold gameLoop. cbn [set_rafPending running].
        destruct (running s); cbn [negb]; [|split; [reflexivity | now left]].
        set (s1 := set_lastTime ts (set_rafPending n s)).
        set (dt := frame_dt ts (set_rafPending n s)).
        assert (Hu : difficulty (update r dt s1) = difficulty s /\
                     (overlayDiff (update r dt s1) = overlayDiff s \/
                      overlayDiff (update r dt s1) = difficulty s)).
        { unfold update, update_tiles.
          destruct (spawn_step_settings r dt s1) as (_ & D1 & _ & _ & _ & O1).
          change (difficulty s1) with (difficulty s) in D1.
          change (overlayDiff s1) with (overlayDiff s) in O1.
          revert D1 O1. generalize (spawn_step r dt s1). intros s2 D2 O2.
          rewrite <- D2, <- O2. clear D2 O2.
          generalize (List.length (tiles s2)). intros m.
          revert s2. induction m as [|m IHm]; intros s2;
            [split; [reflexivity | now left]|].
          cbn [update_loop].
          assert (Hb : difficulty (update_body dt m s2) = difficulty s2 /\
                       (overlayDiff (update_body dt m s2) = overlayDiff s2 \/
                        overlayDiff (update_body dt m s2) = difficulty s2)).
          { unfold update_body.
            destruct (nth_error (tiles s2) m) as [t|];
              [|split; [reflexivity | now left]].
            cbn. destruct (Qgtb _ _); [|split; [reflexivity | now left]].
            destruct (lives s2 - 1 <=? 0)%Z; cbn;
              (split; [reflexivity | (now right) || (now left)]). }
          destruct Hb as (Hb1 & Hb2).
          destruct (IHm (update_body dt m s2)) as (H1 & H2).
          rewrite Hb1 in H1, H2. split; [exact H1|].
          destruct H2 as [H2 | H2]; [|now right].
          rewrite H2. exact Hb2. }
        destruct Hu as (Hu1 & Hu2).
        destruct (Qgtb (flashTime (update r dt s1)) 0); cbn;
          (split; [exact Hu1 | exact Hu2]). }
      destruct Hkeep as (K1 & [K2 | K2]); rewrite K1, K2; auto.
    + destruct (click_cases px py s) as [-> | [-> | (i & ->)]].
      * now split.
      * unfold penalizeMiss. cbn.
        destruct (Qgtb (spawnInterval s) 280); cbn;
          destruct (lives s - 1 <=? 0)%Z; cbn; auto.
      * cbn. auto.
    + destruct (keydown_cases key code s) as [-> | [-> | [(c & ->) | (_ & ->)]]].
      * now split.
      * unfold penalizeMiss. cbn.
        destruct (Qgtb (spawnInterval s) 280); cbn;
          destruct (lives s - 1 <=? 0)%Z; cbn; auto.
      * unfold hit_by_key. cbn.
        destruct (Qgtb (spawnInterval s) 380); cbn; auto.
      * cbn. auto.
    + cbn. destruct IHo as [-> | IHo].
      * cbn. split; [exact IHd | now left].
      * destruct (String.eqb (overlayDiff s) ""); auto.
    + unfold difficultyChange. cbn. destruct (running s); cbn; auto.
    + cbn. auto.
    + cbn. auto.
Qed.

Lemma reachable_named_reachable (s : State) :
  reachable_named s -> reachable s.
Proof.
  induction 1 as [w h | i s _ _ IH];
    [apply reachable_init | now apply reachable_step].
Qed.

Lemma run_reachable_named (l : list Input) :
  forall s, Forall selector_input l -> reachable_named s ->
            reachable_named (run l s).
Proof.
  induction l as [|i l IH]; intros s Hl Hs; [exact Hs|].
  inversion Hl as [|i' l' Hi Hl']; subst.
  apply IH; [exact Hl' | now apply reachable_named_step].
Qed.

Lemma after_stall_named : reachable_named after_stall.
Proof.
  apply reachable_named_step; [exact I|].
  apply run_reachable_named; [repeat constructor | apply reachable_named_init].
Qed.

(** As long as the difficulty selectors hold names that have a profile,
    the spawn interval is above 257.6 ms and at most 1300 ms and the base
    speed is at least 70 in every state reached: the escalations never
    take the interval to 280 x 0.92 or below, and nothing ever lowers the
    speed under the slowest profile. *)
Theorem reachable_escalation_bounds (s : State) :
  reachable_named s ->
  has_profile (difficulty s) /\
  257.6 < spawnInterval s /\ spawnInterval s <= 1300 /\ 70 <= tileSpeed s.
Proof.
  intros Hr. split; [apply (reachable_named_difficulty s Hr)|].
  apply (reachable_healthy s (reachable_named_reachable s Hr)).
Qed.

(** As long as the difficulty selectors hold names that have a profile,
    in every state reached the score is not negative, there are at most 5
    lives (the most a profile gives), and the flash timer is not negative,
    whatever the timestamps were. *)
Theorem reachable_counter_bounds (s : State) :
  reachable_named s ->
  (0 <= score s)%Z /\ (lives s <= 5)%Z /\ 0 <= flashTime s.
Proof.
  intros Hr. apply (reachable_healthy s (reachable_named_reachable s Hr)).
Qed.

Lemma before_stall_reachable : reachable before_stall.
Proof. apply run_reachable. apply reachable_init. Qed.

Lemma running_has_pending_frame_witness : (1 <= rafPending before_stall)%nat.
Proof.
  apply (running_has_pending_frame before_stall before_stall_reachable).
  vm_compute. reflexivity.
Defined.

Lemma reachable_escalation_bounds_witness :
  257.6 < spawnInterval after_stall /\ 70 <= tileSpeed after_stall.
Proof.
  destruct (reachable_escalation_bounds after_stall after_stall_named)
    as (_ & H1 & _ & H3).
  split; [exact H1 | exact H3].
Defined.

Lemma reachable_counter_bounds_witness :
  (0 <= score after_stall)%Z /\ (lives after_stall <= 5)%Z.
Proof.
  destruct (reachable_counter_bounds after_stall after_stall_named)
    as (H1 & H2 & _).
  split; [exact H1 | exact H2].
Defined.

(** ** Play never gives back *)

Lemma hit_by_click_fields (i : nat) (s : State) :
  let s' := hit_by_click i s in
  score s' = (score s + 1)%Z /\ lives s' = lives s /\
  running s' = running s /\
  game_overs (effects s') = game_overs (effects s).
Proof. cbn. repeat split. Qed.

(** During a run no frame, click or key press adds a life or takes a
    point away: the lives can only go down, and the score goes up by at
    most 1 per event. *)
Theorem play_never_adds_lives (i : Input) (s : State) :
  running s = true -> play_input i ->
  (lives (step i s) <= lives s)%Z /\
  (score s <= score (step i s) <= score s + 1)%Z.
Proof.
  intros Hrun Hi.
  destruct i as [r ts | px py | key code | | v | v | w h];
    try contradiction; cbn [step].
  - destruct (rafPending s) as [|n]; [lia|].
    assert (Hrun' : running (set_rafPending n s) = true) by exact Hrun.
    destruct (gameLoop_fields r ts _ Hrun') as (G1 & G2 & _).
    destruct (update_fields r (frame_dt ts (set_rafPending n s))
                (set_lastTime ts (set_rafPending n s)))
      as (U1 & _ & _ & _ & _ & _ & _ & _ & _ & U10).
    cbn [set_lastTime set_rafPending score lives] in U1, U10.
    rewrite G1, G2, U1. lia.
  - destruct (click_cases px py s) as [-> | [-> | (i & ->)]]; [lia | |].
    + destruct (penalizeMiss_fields s) as (F1 & _ & _ & _ & _ & F6).
      rewrite F1, F6. lia.
    + destruct (hit_by_click_fields i s) as (F1 & F2 & _).
      rewrite F1, F2. lia.
  - destruct (keydown_cases key code s)
      as [-> | [-> | [(c & ->) | (Hstop & _)]]]; [lia | | | congruence].
    + destruct (penalizeMiss_fields s) as (F1 & _ & _ & _ & _ & F6).
      rewrite F1, F6. lia.
    + destruct (hit_by_key_fields c s) as (F1 & F2 & _).
      rewrite F1, F2. lia.
Qed.

Lemma play_never_adds_lives_witness :
  (lives (step (Click 0 0) two_tiles) <= lives two_tiles)%Z.
Proof.
  apply (play_never_adds_lives (Click 0 0) two_tiles); [reflexivity | exact I].
Defined.

(** ** After the end of a run *)

Lemma set_rafPending_self (s : State) : set_rafPending (rafPending s) s = s.
Proof. now destruct s. Qed.

Lemma frame_when_stopped (r : Rand) (ts : Q) (s : State) :
  running s = false ->
  step (Frame r ts) s = set_rafPending (Nat.pred (rafPending s)) s.
Proof.
  intros Hrun. cbn [step]. destruct (rafPending s) as [|n] eqn:E.
  - cbn [Nat.pred]. rewrite <- E. symmetry. apply set_rafPending_self.
  - unfold gameLoop. cbn [set_rafPending running]. rewrite Hrun. reflexivity.
Qed.

Lemma frames_when_stopped (l : list Input) :
  forall s, running s = false -> Forall is_frame l ->
            run l s = set_rafPending (rafPending s - List.length l) s.
Proof.
  induction l as [|i l IH]; intros s Hrun Hl.
  - cbn. rewrite Nat.sub_0_r. symmetry. apply set_rafPending_self.
  - inversion Hl as [|i' l' Hi Hl']; subst.
    destruct i as [r ts | | | | | |]; try contradiction.
    change (run (Frame r ts :: l) s) with (run l (step (Frame r ts) s)).
    rewrite (frame_when_stopped r ts s Hrun).
    rewrite IH; [| exact Hrun | exact Hl'].
    change (set_rafPending ?a (set_rafPending ?b s)) with (set_rafPending a s).
    cbn [set_rafPending rafPending List.length].
    replace (Nat.pred (rafPending s) - List.length l)%nat
      with (rafPending s - S (List.length l))%nat by lia.
    reflexivity.
Qed.

(** Once the game is stopped, play is ignored: a click changes nothing, a
    key other than Enter changes nothing, and frame callbacks only use up
    what was scheduled, so the frame loop runs dry by itself and tiles,
    lives and score stay as they were at the end of the run. *)
Theorem stopped_game_ignores_play (s : State) :
  running s = false ->
  (forall px py, click px py s = s) /\
  (forall key code, key <> "Enter"%string -> keydown key code s = s) /\
  (forall r ts, gameLoop r ts s = s) /\
  (forall l, Forall is_frame l ->
             run l s = set_rafPending (rafPending s - List.length l) s).
Proof.
  intros Hrun. split; [|split; [|split]].
  - intros px py. unfold click. now rewrite Hrun.
  - intros key code Hkey. unfold keydown. rewrite Hrun. cbn [negb].
    apply String.eqb_neq in Hkey. now rewrite Hkey.
  - intros r ts. unfold gameLoop. now rewrite Hrun.
  - intros l Hl. now apply frames_when_stopped.
Qed.

Lemma stopped_game_ignores_play_witness :
  click 0 0 after_stall = after_stall /\
  rafPending (run [Frame r0 105000; Frame r0 106000] after_stall) = 0%nat.
Proof.
  assert (Hstop : running after_stall = false) by (vm_compute; reflexivity).
  destruct (stopped_game_ignores_play after_stall Hstop) as (Hc & _ & _ & Hf).
  split; [apply Hc|].
  rewrite (Hf [Frame r0 105000; Frame r0 106000]).
  - vm_compute. reflexivity.
  - repeat constructor.
Defined.

(** ** A miss penalty ends the run once *)

(** A miss penalty on the last life stops the game and sends the
    game-over effects exactly once; with more than one life left it keeps
    the game running and sends none. *)
Theorem miss_penalty_ends_run_once (s : State) :
  running s = true ->
  ((lives s <= 1)%Z ->
   running (penalizeMiss s) = false /\
   game_overs (effects (penalizeMiss s)) = S (game_overs (effects s))) /\
  ((1 < lives s)%Z ->
   running (penalizeMiss s) = true /\
   game_overs (effects (penalizeMiss s)) = game_overs (effects s)).
Proof.
  intros Hrun.
  destruct (penalizeMiss_fields s) as (_ & _ & _ & F4 & _).
  destruct (penalizeMiss_more s) as (_ & _ & M3).
  rewrite F4, M3, Hrun. split; intros Hl.
  - assert (E : (lives s - 1 <=? 0)%Z = true) by (apply Z.leb_le; lia).
    rewrite E. split; [reflexivity | lia].
  - assert (E : (lives s - 1 <=? 0)%Z = false) by (apply Z.leb_gt; lia).
    rewrite E. split; [reflexivity | lia].
Qed.

Lemma miss_penalty_ends_run_once_witness :
  running (penalizeMiss (set_lives 1 two_tiles)) = false /\
  running (penalizeMiss two_tiles) = true.
Proof.
  destruct (miss_penalty_ends_run_once (set_lives 1 two_tiles) eq_refl)
    as (Hlast & _).
  destruct (miss_penalty_ends_run_once two_tiles eq_refl) as (_ & Hmore).
  split; [apply Hlast; discriminate | apply Hmore; reflexivity].
Defined.

(** ** How often a frame update ends the game *)

Lemma game_overs_of_misses_step (l : Z) (k : nat) :
  game_overs_of_misses l (S k)
  = ((if (l - 1 <=? 0)%Z then 1 else 0) + game_overs_of_misses (l - 1) k)%nat.
Proof.
  unfold game_overs_of_misses.
  destruct (l - 1 <=? 0)%Z eqn:E; [apply Z.leb_le in E | apply Z.leb_gt in E];
    lia.
Qed.

Lemma update_body_overs (dt : Q) (pre suf : list Tile.t) (t : Tile.t)
    (s : State) :
  tiles s = pre ++ t :: suf ->
  game_overs (effects (update_body dt (List.length pre) s))
  = (game_overs (effects s)
     + if gone (height s) (Tile.update dt t)
       then (if (lives s - 1 <=? 0)%Z then 1 else 0) else 0)%nat.
Proof.
  intros Ht. unfold update_body, gone.
  rewrite Ht, nth_error_middle. cbn [set_tiles height tiles].
  destruct (Qgtb (Tile.y (Tile.update dt t)) (height s)) eqn:E.
  - cbn. destruct (lives s - 1 <=? 0)%Z; cbn; lia.
  - cbn. lia.
Qed.

Lemma update_loop_overs (dt : Q) (pre : list Tile.t) :
  forall (suf : list Tile.t) (s : State),
    tiles s = pre ++ suf ->
    game_overs (effects (update_loop dt (List.length pre) s))
    = (game_overs (effects s)
       + game_overs_of_misses (lives s)
           (List.length (filter (gone (height s))
                           (map (Tile.update dt) pre))))%nat.
Proof.
  induction pre as [|t pre IH] using rev_ind; intros suf s Ht.
  - cbn. unfold game_overs_of_misses. lia.
  - rewrite length_app, Nat.add_1_r. cbn [update_loop].
    rewrite <- app_assoc in Ht. cbn [app] in Ht.
    destruct (update_body_at dt pre suf t s Ht) as (Hs & Hgone & Hstay).
    pose proof (update_body_overs dt pre suf t s Ht) as Ho.
    assert (Hh : height (update_body dt (List.length pre) s) = height s)
      by (unfold same_settings in Hs; tauto).
    rewrite map_app, filter_app, length_app. cbn [map filter].
    destruct (gone (height s) (Tile.update dt t)) eqn:E.
    + destruct (Hgone eq_refl) as (Ht' & Hl').
      rewrite (IH suf _ Ht'), Hh, Hl', Ho. cbn [List.length].
      rewrite Nat.add_1_r, game_overs_of_misses_step. lia.
    + destruct (Hstay eq_refl) as (Ht' & Hl').
      rewrite (IH _ _ Ht'), Hh, Hl', Ho. cbn [List.length].
      rewrite !Nat.add_0_r. reflexivity.
Qed.

(** A frame update in which [k] tiles pass the bottom runs [endGame] once
    for the tile that takes the lives to 0 and once for every tile after
    it: not at all when fewer tiles pass than lives are left, exactly once
    when as many pass as lives are left, and [k - lives + 1] times when
    more do. *)
Theorem update_game_over_count (r : Rand) (dt : Q) (s : State) :
  let moved := map (Tile.update dt) (tiles (spawn_step r dt s)) in
  let k := List.length (filter (gone (height s)) moved) in
  let before := game_overs (effects s) in
  let after := game_overs (effects (update r dt s)) in
  after = (before + game_overs_of_misses (lives s) k)%nat /\
  ((Z.of_nat k < lives s)%Z -> after = before) /\
  ((1 <= lives s)%Z -> Z.of_nat k = lives s -> after = S before) /\
  ((1 <= lives s)%Z -> (lives s < Z.of_nat k)%Z ->
   Z.of_nat after = (Z.of_nat before + (Z.of_nat k - lives s + 1))%Z).
Proof.
  cbn zeta.
  destruct (spawn_step_keeps r dt s) as (Hl & Hh & _ & _ & _ & _ & He).
  pose proof (update_loop_overs dt (tiles (spawn_step r dt s)) []
                (spawn_step r dt s)) as H.
  rewrite app_nil_r in H. specialize (H eq_refl).
  rewrite Hl, Hh, He in H.
  change (update_loop dt (List.length (tiles (spawn_step r dt s)))
            (spawn_step r dt s)) with (update r dt s) in H.
  split; [exact H|].
  rewrite H. unfold game_overs_of_misses.
  repeat split; intros; lia.
Qed.

Lemma update_game_over_count_witness :
  game_overs (effects (update r0 0 two_tiles))
  = game_overs (effects two_tiles).
Proof.
  destruct (update_game_over_count r0 0 two_tiles) as (_ & Hfew & _).
  apply Hfew. vm_compute. reflexivity.
Defined.

(** ** The spawned tile *)

Lemma Math_max_cases (a b : Q) :
  (a <= b /\ Math_max a b = b) \/ (b < a /\ Math_max a b = a).
Proof.
  unfold Math_max. destruct (Qle_bool a b) eqn:E.
  - left. split; [now apply Qle_bool_iff | reflexivity].
  - right. split; [|reflexivity].
    apply Qnot_le_lt. intros H. apply Qle_bool_iff in H. congruence.
Qed.

Lemma Math_min_cases (a b : Q) :
  (a <= b /\ Math_min a b = a) \/ (b < a /\ Math_min a b = b).
Proof.
  unfold Math_min. destruct (Qle_bool a b) eqn:E.
  - left. split; [now apply Qle_bool_iff | reflexivity].
  - right. split; [|reflexivity].
    apply Qnot_le_lt. intros H. apply Qle_bool_iff in H. congruence.
Qed.

Lemma Math_round_le (a : Q) (z : Z) :
  a + 0.5 < inject_Z z + 1 -> Math_round a <= inject_Z z.
Proof.
  intros H. unfold Math_round. rewrite <- Zle_Qle.
  pose proof (Qfloor_le (a + 0.5)) as Hf.
  assert (Hlt : inject_Z (Qfloor (a + 0.5)) < inject_Z (z + 1)).
  { rewrite inject_Z_plus. change (inject_Z 1) with 1. lra. }
  rewrite <- Zlt_Qlt in Hlt. lia.
Qed.

(** On a canvas at least 72 wide, a spawned tile is between 40 and 100
    wide and between 24 and 110 high, lies within the 16-pixel margins on
    both sides, and starts wholly above the field, its lower edge 10
    pixels over the top. *)
Theorem new_tile_geometry (r : Rand) (s : State) :
  valid_rand r -> 72 <= width s ->
  let t := new_tile r s in
  40 <= Tile.w t /\ Tile.w t <= 100 /\
  24 <= Tile.h t /\ Tile.h t <= 110 /\
  16 <= Tile.x t /\ Tile.x t + Tile.w t <= width s - 16 /\
  Tile.y t + Tile.h t == -10.
Proof.
  intros ((W0 & W1) & (H0 & H1) & (X0 & X1) & _) Hwide. cbn zeta.
  unfold new_tile, Tile.new. cbn [Tile.x Tile.y Tile.w Tile.h].
  set (raw := width s * (0.08 + rW r * 0.07)).
  set (w := Math_max 40 (Math_min 100 raw)).
  set (h := Math_max 24 (Math_round (w * (0.5 + rH r * 0.6)))).
  assert (Hraw : raw <= width s * 0.15).
  { unfold raw. nra. }
  assert (Hw : 40 <= w /\ w <= 100 /\ (w <= 40 \/ w <= raw)).
  { unfold w.
    destruct (Math_max_cases 40 (Math_min 100 raw)) as [(A & ->) | (A & ->)];
      destruct (Math_min_cases 100 raw) as [(B & E) | (B & E)];
      rewrite ?E in *; repeat split; try lra; auto; right; lra. }
  destruct Hw as (Hw40 & Hw100 & Hwraw).
  assert (Hroom : 0 <= width s - w - 16 * 2).
  { destruct Hwraw; lra. }
  assert (Hh : 24 <= h /\ h <= 110).
  { unfold h. split; [apply Math_max_l|].
    destruct (Math_max_cases 24 (Math_round (w * (0.5 + rH r * 0.6))))
      as [(_ & ->) | (_ & ->)]; [|discriminate].
    apply (Math_round_le _ 110). change (inject_Z 110) with 110. nra. }
  destruct Hh as (Hh24 & Hh110).
  repeat split; auto; nra.
Qed.

Lemma new_tile_geometry_witness :
  40 <= Tile.w (new_tile r0 (init 800 600)) /\
  16 <= Tile.x (new_tile r0 (init 800 600)).
Proof.
  assert (Hwide : 72 <= width (init 800 600)) by discriminate.
  destruct (new_tile_geometry r0 (init 800 600) valid_r0 Hwide)
    as (Hw & _ & _ & _ & Hx & _).
  split; [exact Hw | exact Hx].
Defined.

(** The speed of a spawned tile is the current base speed times a factor
    between the two multipliers of the current difficulty. *)
Theorem new_tile_speed (r : Rand) (s : State) :
  valid_rand r -> 0 <= tileSpeed s ->
  let p := difficultySettings (difficulty s) in
  let t := new_tile r s in
  tileSpeed s * Profile.minMult p <= Tile.speed t /\
  Tile.speed t <= tileSpeed s * Profile.maxMult p.
Proof.
  intros (_ & _ & _ & (M0 & M1)) Hspeed. cbn zeta.
  unfold new_tile, Tile.new. cbn [Tile.speed].
  destruct (profile_bounds (difficulty s)) as (_ & _ & _ & _ & Hmin & Hle).
  set (lo := Profile.minMult (difficultySettings (difficulty s))) in *.
  set (hi := Profile.maxMult (difficultySettings (difficulty s))) in *.
  assert (Hd : 0 <= rMult r * (hi - lo)) by (apply Qmult_le_0_compat; lra).
  assert (Hu : 0 <= (1 - rMult r) * (hi - lo))
    by (apply Qmult_le_0_compat; lra).
  split.
  - assert (0 <= tileSpeed s * (rMult r * (hi - lo)))
      by (now apply Qmult_le_0_compat).
    lra.
  - assert (0 <= tileSpeed s * ((1 - rMult r) * (hi - lo)))
      by (now apply Qmult_le_0_compat).
    lra.
Qed.

Lemma new_tile_speed_witness :
  110 * 0.95 <= Tile.speed (new_tile r0 (init 800 600)).
Proof.
  assert (Hs : 0 <= tileSpeed (init 800 600)) by discriminate.
  destruct (new_tile_speed r0 (init 800 600) valid_r0 Hs) as (Hlo & _).
  exact Hlo.
Defined.

(** ** Difficulty profiles *)

(** Every name that plain objects do not inherit from
    [Object.prototype] has a profile: [easy] and [hard] their own, any
    other such name the normal one; and that profile has a positive spawn
    interval, base speed and number of lives, and positive multipliers
    with the lower not above the upper. *)
Theorem difficulty_profiles_well_formed (mode : string) :
  ~ In mode inherited_keys ->
  let p := difficultySettings mode in
  (mode = "easy"%string -> p = easy) /\
  (mode = "hard"%string -> p = hard) /\
  (mode <> "easy"%string -> mode <> "hard"%string -> p = normal) /\
  0 < Profile.spawnInterval p /\ 0 < Profile.tileSpeed p /\
  (0 < Profile.lives p)%Z /\
  0 < Profile.minMult p /\ Profile.minMult p <= Profile.maxMult p.
Proof.
  intros _. cbn zeta.
  destruct (profile_bounds mode) as (B1 & _ & B3 & B4 & B5 & B6).
  split; [intros ->; reflexivity|]. split; [intros ->; reflexivity|].
  split.
  - intros He Hh. unfold difficultySettings.
    apply String.eqb_neq in He, Hh. now rewrite He, Hh.
  - repeat split; auto; try lra; lia.
Qed.

Lemma not_inherited_insane : ~ In "insane"%string inherited_keys.
Proof.
  unfold inherited_keys. cbn [In].
  intros H. repeat (destruct H as [H | H]; [discriminate H|]). exact H.
Defined.

Lemma difficulty_profiles_well_formed_witness :
  difficultySettings "insane" = normal.
Proof.
  destruct (difficulty_profiles_well_formed "insane" not_inherited_insane)
    as (_ & _ & Hfall & _).
  apply Hfall; discriminate.
Defined.

(** ** Restarting *)

Lemma endGame_fields (s : State) :
  let s' := endGame s in
  overlayDiff s' = difficulty s /\ difficulty s' = difficulty s /\
  running s' = false /\ score s' = score s /\ lives s' = lives s /\
  tiles s' = tiles s.
Proof. cbn. repeat split. Qed.

Lemma restart_fields (s : State) :
  let chosen := if String.eqb (overlayDiff s) "" then difficulty s
                else overlayDiff s in
  let p := difficultySettings chosen in
  let s' := restart s in
  difficulty s' = chosen /\ tiles s' = [] /\ score s' = 0%Z /\
  lives s' = Profile.lives p /\ spawnInterval s' = Profile.spawnInterval p /\
  tileSpeed s' = Profile.tileSpeed p /\ running s' = true /\
  lastSpawn s' = 0 /\ lastTime s' = 0.
Proof. cbn. repeat split. Qed.

(** For difficulty names that have a profile, the restart button after
    a game over starts a fresh run (no tiles, score 0, running, the lives,
    interval and base speed of the profile) at the difficulty of the run
    that ended, because [endGame] copies that difficulty into the overlay
    chooser; if the player picks another level on the overlay first, the
    run starts at that level. *)
Theorem restart_after_game_over (s : State) :
  (has_profile (difficulty s) ->
   let again := restart (endGame s) in
   difficulty again = difficulty s /\
   tiles again = [] /\ score again = 0%Z /\ running again = true /\
   lives again = Profile.lives (difficultySettings (difficulty s)) /\
   spawnInterval again
   = Profile.spawnInterval (difficultySettings (difficulty s)) /\
   tileSpeed again = Profile.tileSpeed (difficultySettings (difficulty s)))
  /\
  (forall v, has_profile v ->
     let other := restart (step (OverlayChoice v) (endGame s)) in
     difficulty other = v /\
     tiles other = [] /\ score other = 0%Z /\ running other = true /\
     lives other = Profile.lives (difficultySettings v) /\
     spawnInterval other = Profile.spawnInterval (difficultySettings v) /\
     tileSpeed other = Profile.tileSpeed (difficultySettings v)).
Proof.
  split.
  - intros _. cbn zeta.
    destruct (restart_fields (endGame s))
      as (R1 & R2 & R3 & R4 & R5 & R6 & R7 & _).
    destruct (endGame_fields s) as (E1 & E2 & _).
    rewrite E1, E2 in *.
    assert (Hc : (if String.eqb (difficulty s) "" then difficulty s
                  else difficulty s) = difficulty s)
      by (destruct (String.eqb (difficulty s) ""); reflexivity).
    rewrite Hc in *. repeat split; assumption.
  - intros v Hv. cbn zeta.
    assert (Hne : String.eqb v "" = false)
      by (destruct Hv as [-> | [-> | ->]]; reflexivity).
    destruct (restart_fields (step (OverlayChoice v) (endGame s)))
      as (R1 & R2 & R3 & R4 & R5 & R6 & R7 & _).
    cbn [step set_overlayDiff overlayDiff] in R1, R4, R5, R6.
    rewrite Hne in R1, R4, R5, R6.
    repeat split; assumption.
Qed.

Lemma restart_after_game_over_witness :
  difficulty (restart (endGame two_tiles)) = "normal"%string /\
  lives (restart (step (OverlayChoice "hard") (endGame two_tiles))) = 2%Z.
Proof.
  destruct (restart_after_game_over two_tiles) as (Hsame & Hother).
  destruct Hsame as (Hd & _); [right; left; reflexivity|].
  destruct (Hother "hard"%string) as (_ & _ & _ & _ & Hl & _);
    [right; right; reflexivity|].
  split; [exact Hd | exact Hl].
Defined.

(** ** The mute preference *)

(** The mute preference survives a reload when the storage works: after
    [setMuted v] the next visit starts with [muted = v], the matching
    button label and the same stored flag.  When the storage throws and
    holds no flag, the choice lasts for the visit only and the next visit
    starts unmuted. *)
Theorem mute_preference_round_trip (v : bool) (p : Mute.t) :
  (Mute.storageThrows p = false ->
   Mute.muted (Mute.reopen (Mute.setMuted v p)) = v /\
   Mute.stored (Mute.reopen (Mute.setMuted v p))
   = Mute.stored (Mute.setMuted v p) /\
   Mute.label (Mute.reopen (Mute.setMuted v p))
   = Mute.label (Mute.setMuted v p)) /\
  (Mute.storageThrows p = true ->
   Mute.muted (Mute.setMuted v p) = v /\
   Mute.stored (Mute.setMuted v p) = Mute.stored p /\
   Mute.muted (Mute.reopen (Mute.setMuted v p)) = false).
Proof.
  split; intros Hs.
  - unfold Mute.reopen, Mute.load, Mute.opened, Mute.setMuted.
    cbn. rewrite Hs. cbn. destruct v; cbn; repeat split.
  - unfold Mute.reopen, Mute.load, Mute.opened, Mute.setMuted.
    cbn. rewrite Hs. cbn. repeat split.
Qed.

Lemma mute_preference_round_trip_witness :
  Mute.muted (Mute.reopen (Mute.setMuted true (Mute.opened None false)))
  = true.
Proof.
  destruct (mute_preference_round_trip true (Mute.opened None false))
    as (Hworks & _).
  apply Hworks. reflexivity.
Defined.

(** Two clicks on the mute button bring back the mute state, the button
    label and (when the storage works) the stored flag that one call of
    [setMuted] with the present state gives; a call to [suspend] or
    [resume] is made only when an audio context exists. *)
Theorem mute_toggle_twice (p : Mute.t) :
  Mute.muted (Mute.toggle (Mute.toggle p)) = Mute.muted p /\
  Mute.stored (Mute.toggle (Mute.toggle p))
  = Mute.stored (Mute.setMuted (Mute.muted p) p) /\
  Mute.label (Mute.toggle (Mute.toggle p))
  = Mute.label (Mute.setMuted (Mute.muted p) p) /\
  (Mute.audioCtx p = None ->
   Mute.calls (Mute.toggle (Mute.toggle p)) = Mute.calls p).
Proof.
  unfold Mute.toggle, Mute.setMuted. cbn.
  destruct (Mute.muted p), (Mute.storageThrows p); cbn;
    (repeat split; intros Hc; rewrite Hc; reflexivity).
Qed.

Lemma mute_toggle_twice_witness :
  Mute.calls (Mute.toggle (Mute.toggle (Mute.opened None false))) = [].
Proof.
  apply (mute_toggle_twice (Mute.opened None false)). reflexivity.
Defined.

(** ** The first frame of a run *)

Lemma idle_frame (r : Rand) (ts : Q) (s0 : State) :
  running s0 = true -> lastTime s0 = 0 -> lastSpawn s0 = 0 ->
  tiles s0 = [] -> 0 <= spawnInterval s0 ->
  let s' := gameLoop r ts s0 in
  tiles s' = [] /\ lives s' = lives s0 /\ score s' = score s0 /\
  running s' = true /\ lastSpawn s' == 0 /\ lastTime s' = ts /\
  rafPending s' = S (rafPending s0).
Proof.
  intros Hrun Htime Hspawn Htiles Hint. cbn zeta.
  assert (Hdt : frame_dt ts s0 == 0).
  { unfold frame_dt. rewrite Htime. change (Qeq_bool 0 0) with true.
    cbn iota. field. }
  set (dt := frame_dt ts s0) in *.
  assert (Hu : update r dt (set_lastTime ts s0)
               = set_lastSpawn (lastSpawn s0 + dt * 1000) (set_lastTime ts s0)).
  { unfold update, update_tiles, spawn_step.
    cbn [set_lastSpawn set_lastTime lastSpawn spawnInterval].
    assert (E : Qgtb (lastSpawn s0 + dt * 1000) (spawnInterval s0) = false).
    { apply Qgtb_false. rewrite Hspawn, Hdt. lra. }
    rewrite E.
    change (tiles (set_lastSpawn _ (set_lastTime ts s0))) with (tiles s0).
    rewrite Htiles. reflexivity. }
  unfold gameLoop. rewrite Hrun. cbn [negb]. fold dt. rewrite Hu.
  destruct (Qgtb (flashTime (set_lastSpawn (lastSpawn s0 + dt * 1000)
                               (set_lastTime ts s0))) 0);
    cbn; rewrite Hspawn, Hdt; repeat split; auto; lra.
Qed.

(** The first frame after [startGame] only does the bookkeeping: the
    elapsed time is 0, so nothing is spawned, no life is lost and the game
    keeps running; the timestamp is recorded and the next frame is
    scheduled. *)
Theorem first_frame_is_idle (r : Rand) (ts : Q) (s : State) :
  let s0 := startGame s in
  let s' := gameLoop r ts s0 in
  tiles s' = [] /\ lives s' = lives s0 /\ score s' = score s0 /\
  running s' = true /\ lastSpawn s' == 0 /\ lastTime s' = ts /\
  rafPending s' = S (rafPending s0).
Proof.
  cbn zeta.
  destruct (startGame_fields s)
    as (F1 & _ & _ & F4 & _ & F6 & F7 & F8 & _).
  destruct (profile_bounds (difficulty s)) as (B1 & _).
  apply idle_frame; auto. rewrite F4. lra.
Qed.
